(** * Path validation for the Silicon Labs SDK build descriptions

    A shallow embedding of [scripts/setup/silabs/validate_efr32_sdk_paths.py]:
    the expression extractor, the variable resolver, the board enumerator,
    the path validator, the validation driver and the exit status of [main],
    followed by the properties established about them.

    Python strings are modelled as [string]; every character stands for a
    code point below 256.  Dictionaries from [str] to [str] are
    [gmap string string], the driver's [seen] set is a [gset]. *)

From Stdlib Require Import Strings.String Strings.Ascii Lists.List Bool Arith Lia.
From stdpp Require Import base gmap strings.

Import ListNotations.
Local Open Scope char_scope.
Local Open Scope stdpp_scope.

(** ** Python string operations used by the script *)

Module Str.

(** [s.startswith(prefix)] *)
Fixpoint startswith (s prefix : string) {struct prefix} : bool :=
  match prefix, s with
  | EmptyString, _ => true
  | String p prefix', String a s' => Ascii.eqb a p && startswith s' prefix'
  | String _ _, EmptyString => false
  end.

(** [sub in s] *)
Fixpoint contains (sub s : string) : bool :=
  startswith s sub ||
  match s with
  | EmptyString => false
  | String _ s' => contains sub s'
  end.

(** [s.endswith(suffix)] *)
Fixpoint endswith (s suffix : string) : bool :=
  String.eqb s suffix ||
  match s with
  | EmptyString => false
  | String _ s' => endswith s' suffix
  end.

(** [s[n:]] *)
Fixpoint drop (n : nat) (s : string) : string :=
  match n, s with
  | S n', String _ s' => drop n' s'
  | _, _ => s
  end.

(** [s[:-1]] *)
Fixpoint drop_last (s : string) : string :=
  match s with
  | EmptyString => EmptyString
  | String a s' =>
      match s' with
      | EmptyString => EmptyString
      | String _ _ => String a (drop_last s')
      end
  end.

(** [s.split(sep)[0]]: the text before the first occurrence of [sep]. *)
Fixpoint before_sep (sep s : string) : string :=
  if startswith s sep then EmptyString
  else match s with
       | EmptyString => EmptyString
       | String a s' => String a (before_sep sep s')
       end.

(** [s.split("\n")] *)
Fixpoint split_lines (s : string) : list string :=
  match s with
  | EmptyString => [EmptyString]
  | String a s' =>
      if Ascii.eqb a "010" then EmptyString :: split_lines s'
      else match split_lines s' with
           | l :: ls => String a l :: ls
           | [] => [String a EmptyString]
           end
  end.

(** The characters [str.strip()] removes, among the code points below 256:
    tab, line feed, vertical tab, form feed, carriage return, the four
    separators 28 to 31, space, next line (133) and no-break space (160). *)
Definition isspace (a : ascii) : bool :=
  match a with
  | "009" | "010" | "011" | "012" | "013"
  | "028" | "029" | "030" | "031" | " " | "133" | "160" => true
  | _ => false
  end%char.

Fixpoint lstrip_with (f : ascii -> bool) (s : string) : string :=
  match s with
  | EmptyString => EmptyString
  | String a s' => if f a then lstrip_with f s' else s
  end.

Fixpoint rstrip_with (f : ascii -> bool) (s : string) : string :=
  match s with
  | EmptyString => EmptyString
  | String a s' =>
      match rstrip_with f s' with
      | EmptyString => if f a then EmptyString else String a EmptyString
      | String b t => String a (String b t)
      end
  end.

(** [s.strip()] *)
Definition strip (s : string) : string :=
  rstrip_with isspace (lstrip_with isspace s).

(** [s.rstrip(",")] *)
Definition rstrip_comma (s : string) : string :=
  rstrip_with (fun a => Ascii.eqb a ",") s.

(** [s.replace(old, new, 1)]: only the first occurrence is replaced. *)
Fixpoint replace_first (s old new : string) : string :=
  if startswith s old then new +:+ drop (String.length old) s
  else match s with
       | EmptyString => EmptyString
       | String a s' => String a (replace_first s' old new)
       end.

(** [s.replace("//", "/")]: the occurrences are found from the left and do
    not overlap, so a run of three separators becomes two. *)
Fixpoint replace_double_slash (s : string) : string :=
  match s with
  | EmptyString => EmptyString
  | String a s1 =>
      match s1 with
      | EmptyString => s
      | String b s2 =>
          if Ascii.eqb a "/" && Ascii.eqb b "/"
          then String "/"%char (replace_double_slash s2)
          else String a (replace_double_slash s1)
      end
  end.

(** The longest run of characters other than [c], when [c] follows it,
    with the text after that [c]: the regular expression [[^c]*c]. *)
Fixpoint run_until (c : ascii) (s : string) : option (string * string) :=
  match s with
  | EmptyString => None
  | String a s' =>
      if Ascii.eqb a c then Some (EmptyString, s')
      else match run_until c s' with
           | Some (k, r) => Some (String a k, r)
           | None => None
           end
  end.

End Str.

(** ** Variable resolver *)

(** [\$\{([^}]+)\}] anchored at the start of [s]: group 1 of the match. *)
Definition placeholder_at (s : string) : option string :=
  if Str.startswith s "${" then
    match Str.run_until "}" (Str.drop 2 s) with
    | Some (String a k, _) => Some (String a k)
    | _ => None
    end
  else None.

(** [re.search(r"\$\{([^}]+)\}", s)]: group 1 of the leftmost match. *)
Fixpoint re_search_placeholder (s : string) : option string :=
  match placeholder_at s with
  | Some key => Some key
  | None =>
      match s with
      | EmptyString => None
      | String _ s' => re_search_placeholder s'
      end
  end.

(** Group 0 of a match whose group 1 is [key]. *)
Definition group0 (key : string) : string := "${" +:+ key +:+ "}".

(** The [while] loop of [resolve_path].  The first component is [None] when
    the body returned [None], and the working string when the loop was left
    by its condition or by [break]; the second component counts the
    iterations of the body. *)
Fixpoint resolve_loop (vars_dict : gmap string string) (max_iter : nat)
    (out : string) {struct max_iter} : option string * nat :=
  if Str.contains "${" out then
    match max_iter with
    | 0 => (Some out, 0)
    | S max_iter' =>
        match re_search_placeholder out with
        | None => (Some out, 1)
        | Some key =>
            match vars_dict !! key with
            | None => (None, 1)
            | Some value =>
                let '(r, n) :=
                  resolve_loop vars_dict max_iter'
                    (Str.replace_first out (group0 key) value) in
                (r, S n)
            end
        end
    end
  else (Some out, 0).

Definition resolve_path (expr : string) (vars_dict : gmap string string)
    : option string :=
  match fst (resolve_loop vars_dict 20 expr) with
  | None => None
  | Some out =>
      if Str.contains "${" out then None
      else Some (Str.replace_double_slash out)
  end.

(** Number of iterations [resolve_path] spends in its loop. *)
Definition resolve_iterations (expr : string) (vars_dict : gmap string string)
    : nat :=
  snd (resolve_loop vars_dict 20 expr).

(** ** Expression extractor *)

(** The double quote, code point 34. *)
Definition dquote : ascii := "034"%char.

(** The pattern of line 100 anchored at the start of [s]: a quote, a dollar
    sign and an opening brace, one or more characters other than a closing
    brace, a closing brace, any characters other than a quote, a quote.  The
    result is group 1, the text between the two quotes.  Both character
    classes are followed by the one character they exclude, so the match at
    a position is unique. *)
Definition quoted_at (s : string) : option string :=
  match s with
  | EmptyString => None
  | String q s1 =>
      if Ascii.eqb q dquote && Str.startswith s1 "${" then
        match Str.run_until "}" (Str.drop 2 s1) with
        | Some (String a k, r1) =>
            match Str.run_until dquote r1 with
            | Some (t, _) => Some (group0 (String a k) +:+ t)
            | None => None
            end
        | _ => None
        end
      else None
  end.

(** [pattern.finditer(line)]: group 1 of the matches, from the left and
    without overlap.  [skip] is the number of characters of the current
    match still to pass (the match is group 1 between two quotes). *)
Fixpoint finditer_quoted (skip : nat) (line : string) : list string :=
  match line with
  | EmptyString => []
  | String _ line' =>
      match skip with
      | S k => finditer_quoted k line'
      | 0 =>
          match quoted_at line with
          | Some g => g :: finditer_quoted (String.length g + 1) line'
          | None => finditer_quoted 0 line'
          end
      end
  end.

(** Lines 103 to 105: comment, blanks, commas and a stray quote removed. *)
Definition tidy (raw : string) : string :=
  let raw := Str.strip (Str.rstrip_comma (Str.strip (Str.before_sep "//" raw))) in
  if Str.endswith raw (String dquote EmptyString) then Str.drop_last raw else raw.

(** Lines 106 to 111: whether the tidied candidate is appended. *)
Definition accepts (raw : string) : bool :=
  if Str.contains "${" raw && (Str.contains "/" raw || Str.endswith raw "}") then
    if Str.contains ":" raw then false
    else if Str.endswith (Str.strip raw) ".gni" then false
    else true
  else false.

(** Lines 93 to 98: the context a line switches to, if it carries a marker. *)
Definition line_marker (line : string) : option string :=
  if Str.contains "include_dirs" line || Str.contains "_include_dirs" line
  then Some "include_dir"
  else if Str.contains "libs +=" line || Str.contains "libs =" line
  then Some "lib"
  else if Str.contains "sources" line
          && (Str.contains "sources +=" line || Str.contains "sources =" line)
  then Some "source"
  else None.

(** The inner [for m in pattern.finditer(line)] loop. *)
Fixpoint collect (matches : list string) (context : string)
    (results : list (string * string)) : list (string * string) :=
  match matches with
  | [] => results
  | g :: matches' =>
      let raw := tidy g in
      collect matches' context
        (if accepts raw then results ++ [(raw, context)] else results)
  end.

(** The outer [for line in lines] loop, with its two mutable variables. *)
Fixpoint extract_lines (lines : list string) (context : string)
    (results : list (string * string)) : list (string * string) :=
  match lines with
  | [] => results
  | line :: lines' =>
      let context := default context (line_marker line) in
      extract_lines lines' context
        (collect (finditer_quoted 0 line) context results)
  end.

Definition extract_path_expressions (content : string)
    : list (string * string) :=
  extract_lines (Str.split_lines content) "source" [].

(** The context in force on line [i], in the words of the specification:
    the one set by the latest marker on a line at or before [i], and
    ["source"] when there is none. *)
Definition context_at (lines : list string) (i : nat) : string :=
  default "source" (last (omap line_marker (take (S i) lines))).

(** ** The host: [pathlib] and the file system

    The script reaches the file system through [pathlib.Path] only.  Its
    operations are the interface below; [path] is the type of [Path]
    objects.  The queries return what the host says; reading is the
    operation that raises on a path that exists (a directory, a file that
    may not be opened, bytes that are not text), which [read_fails] tells. *)

Class Host := {
  path : Type;
  Path : string -> path;              (** [Path(s)] *)
  path_str : path -> string;          (** [str(p)] *)
  path_name : path -> string;         (** [p.name] *)
  is_absolute : path -> bool;         (** [p.is_absolute()] *)
  joinpath : path -> path -> path;    (** [p / q] *)
  path_exists : path -> bool;         (** [p.exists()] *)
  is_dir : path -> bool;              (** [p.is_dir()] *)
  is_file : path -> bool;             (** [p.is_file()] *)
  iterdir : path -> list path;        (** [p.iterdir()] *)
  read_text : path -> string;         (** [p.read_text()], when it returns *)
  read_fails : path -> bool;          (** [p.read_text()] raises *)
}.

Infix "</>" := joinpath (at level 40, left associativity).

(** ** Path validator *)

Definition LIB_EXT : string := ".a".
Definition SOURCE_EXTENSIONS : list string := [".c"; ".cpp"; ".h"; ".S"; ".hpp"].

Definition is_file_path (path_str context : string) : bool :=
  if String.eqb context "include_dir" then false
  else if String.eqb context "lib" then true
  else if String.eqb context "source" then
    Str.endswith path_str LIB_EXT
    || existsb (fun ext => Str.endswith path_str ext) SOURCE_EXTENSIONS
  else
    Str.endswith path_str LIB_EXT
    || existsb (fun ext => Str.endswith path_str ext) SOURCE_EXTENSIONS.

(** The path [validate_path] looks at. *)
Definition located `{Host} (resolved : string) (base_path : path) : path :=
  let p := Path resolved in
  if is_absolute p then p else base_path </> p.

Definition validate_path `{Host} (resolved context : string) (base_path : path)
    : bool * string :=
  let p := located resolved base_path in
  let expect_file := is_file_path resolved context in
  if path_exists p then
    if expect_file && is_dir p then
      (false, "expected file, found directory: " +:+ path_str p)
    else if negb expect_file && is_file p then
      (false, "expected directory, found file: " +:+ path_str p)
    else (true, "")
  else (false, "missing: " +:+ path_str p).

(** ** Board enumerator *)

Definition mcu_defaults : gmap string string :=
  {[ "efr32mg24" := "EFR32MG24B310F1536IM48";
     "efr32mg26" := "EFR32MG26B222F1536IM48";
     "mgm24" := "MGM240PB32VNA" ]}.

Definition discover_board_combinations `{Host} (matter_support_root : path)
    : list (string * string * string) :=
  let efr32 := matter_support_root </> Path "board-support" </> Path "efr32" in
  if negb (is_dir efr32) then []
  else
    flat_map
      (fun family_dir =>
         if negb (is_dir family_dir) then []
         else
           let family := path_name family_dir in
           let mcu := default "" (mcu_defaults !! family) in
           flat_map
             (fun board_dir =>
                if is_dir board_dir then [(family, path_name board_dir, mcu)]
                else [])
             (iterdir family_dir))
      (iterdir efr32).

Definition discover_siwx917_boards `{Host} (matter_support_root : path)
    : list string :=
  let siwx917 :=
    matter_support_root </> Path "board-support" </> Path "si91x" </> Path "siwx917" in
  if negb (is_dir siwx917) then []
  else
    flat_map
      (fun board_dir => if is_dir board_dir then [path_name board_dir] else [])
      (iterdir siwx917).

(** ** Validation driver *)

(** The calls a run makes to the resolver and to the validator, in order.
    The script keeps no such record; it is carried along to state which
    expressions were resolved and which paths were looked up on disk. *)
Inductive call :=
  | Resolve (expr : string) (vars_dict : gmap string string)
  | Validate (resolved context : string).

(** The local variables of [run_gni_validation], with the record of calls. *)
Record tally := Tally {
  missing : list (string * string * string);
  checked : nat;
  unresolved : nat;
  conditional_skipped : nat;
  seen : gset (string * string);
  calls : list call;
}.

Definition empty_tally : tally := Tally [] 0 0 0 ∅ [].

Definition add_seen (e : string * string) (t : tally) : tally :=
  Tally (missing t) (checked t) (unresolved t) (conditional_skipped t)
        ({[ e ]} ∪ seen t) (calls t).
Definition add_missing (m : string * string * string) (t : tally) : tally :=
  Tally (missing t ++ [m]) (checked t) (unresolved t) (conditional_skipped t)
        (seen t) (calls t).
Definition bump_checked (t : tally) : tally :=
  Tally (missing t) (checked t + 1) (unresolved t) (conditional_skipped t)
        (seen t) (calls t).
Definition bump_unresolved (t : tally) : tally :=
  Tally (missing t) (checked t) (unresolved t + 1) (conditional_skipped t)
        (seen t) (calls t).
Definition bump_skipped (t : tally) : tally :=
  Tally (missing t) (checked t) (unresolved t) (conditional_skipped t + 1)
        (seen t) (calls t).
Definition record_call (c : call) (t : tally) : tally :=
  Tally (missing t) (checked t) (unresolved t) (conditional_skipped t)
        (seen t) (calls t ++ [c]).

Definition MISSING_FOR_ALL : string := "(missing for all board combinations)".

Section Driver.
Context `{Host} {Combo : Type}.
Variables (base_vars : gmap string string)
          (board_combos : list Combo)
          (board_var_substrings : list string)
          (get_board_vars : Combo -> gmap string string)
          (chip_root : path)
          (skip_slc_gen skip_conditional : bool).

(** [{**base_vars, **get_board_vars(combo)}]: the board bindings win. *)
Definition vars_with_board (combo : Combo) : gmap string string :=
  get_board_vars combo ∪ base_vars.

(** The [for combo in board_combos] loop; the result carries [any_ok] and
    [resolved_cond] as they stand when the loop is left. *)
Fixpoint board_search (raw_expr context : string) (combos : list Combo)
    (t : tally) (resolved_cond : option string)
    : tally * bool * option string :=
  match combos with
  | [] => (t, false, resolved_cond)
  | combo :: combos' =>
      let t := record_call (Resolve raw_expr (vars_with_board combo)) t in
      match resolve_path raw_expr (vars_with_board combo) with
      | None => (bump_unresolved t, false, None)
      | Some resolved =>
          let t := record_call (Validate resolved context) t in
          let '(ok, _) := validate_path resolved context chip_root in
          let t := bump_checked t in
          if ok then (t, true, Some resolved)
          else board_search raw_expr context combos' t (Some resolved)
      end
  end.

Definition has_board_var (raw_expr : string) : bool :=
  existsb (fun s => Str.contains s raw_expr) board_var_substrings.

(** Line 234: the expression is a generated path that is not reported. *)
Definition slc_gen_skipped (raw_expr : string) : bool :=
  skip_slc_gen && Str.contains "${slc_gen_path}" raw_expr
  && Str.contains "slc_gen" raw_expr.

(** One iteration of the [for raw_expr, context in expressions] loop. *)
Definition visit (t : tally) (e : string * string) : tally :=
  let '(raw_expr, context) := e in
  if bool_decide ((raw_expr, context) ∈ seen t) then t
  else
    let t := add_seen (raw_expr, context) t in
    if slc_gen_skipped raw_expr then bump_skipped t
    else if has_board_var raw_expr then
      if skip_conditional then bump_skipped t
      else
        let '(t, any_ok, resolved_cond) :=
          board_search raw_expr context board_combos t None in
        if negb any_ok && bool_decide (resolved_cond <> None)
        then add_missing (raw_expr, context, MISSING_FOR_ALL) t
        else t
    else
      let t := record_call (Resolve raw_expr base_vars) t in
      match resolve_path raw_expr base_vars with
      | None => bump_unresolved t
      | Some resolved =>
          let t := bump_checked t in
          let t := record_call (Validate resolved context) t in
          let '(ok, msg) := validate_path resolved context chip_root in
          if ok then t else add_missing (raw_expr, context, msg) t
      end.

(** The state of the loop after the given expressions. *)
Definition visit_all (expressions : list (string * string)) : tally :=
  fold_left visit expressions empty_tally.

Definition run_tally (content : string) : tally :=
  visit_all (extract_path_expressions content).

Definition run_gni_validation (content : string)
    : list (string * string * string) * nat * nat * nat :=
  let t := run_tally content in
  (missing t, checked t, unresolved t, conditional_skipped t).

(** What trying one combination amounts to: [None] when the expression
    does not resolve, otherwise whether the resolved path validates. *)
Definition attempt (raw_expr context : string) (combo : Combo) : option bool :=
  match resolve_path raw_expr (vars_with_board combo) with
  | None => None
  | Some resolved => Some (fst (validate_path resolved context chip_root))
  end.

(** The calls that trying one combination makes. *)
Definition attempt_calls (raw_expr context : string) (combo : Combo) : list call :=
  Resolve raw_expr (vars_with_board combo) ::
  match resolve_path raw_expr (vars_with_board combo) with
  | None => []
  | Some resolved => [Validate resolved context]
  end.
End Driver.

(** The expressions with every pair already met left out: the first
    occurrence of each pair, in order. *)
Fixpoint first_occurrences (met : gset (string * string))
    (expressions : list (string * string)) : list (string * string) :=
  match expressions with
  | [] => []
  | e :: expressions' =>
      if bool_decide (e ∈ met) then first_occurrences met expressions'
      else e :: first_occurrences ({[ e ]} ∪ met) expressions'
  end.

(** ** The entry point *)

(** The values [main] has at hand on line 345: the three roots, made absolute
    (from the command line, the script's location and [sdk_paths.gni]), and
    the options of the command line. *)
Record arguments `{Host} := MkArguments {
  chip_root : path;
  efr32_sdk_root : option path;
  wifi_sdk_root : option path;
  gni : option path;
  skip_conditional : bool;
  skip_slc_gen : bool;
  no_siwx917 : bool;
}.

(** What a run of [main] leaves behind: the value it returns, which is the
    exit status of the process, the totals it prints and the calls made. *)
Record outcome := Outcome {
  exit_status : nat;
  all_missing : list (string * string * string * string);
  total_checked : nat;
  total_unresolved : nat;
  total_conditional_skipped : nat;
  all_calls : list call;
}.

Definition str_or_empty `{Host} (p : option path) : string :=
  match p with
  | Some p => path_str p
  | None => ""
  end.

Definition efr32_base_vars `{Host} (args : arguments) : gmap string string :=
  let chip_root := chip_root args in
  let matter_support_root :=
    chip_root </> Path "third_party" </> Path "silabs" </> Path "matter_support" in
  let sl_ot_platform_abstraction :=
    match efr32_sdk_root args with
    | Some r => path_str r +:+ "/openthread/platform-abstraction"
    | None => ""
    end in
  let sl_ot_efr32_root :=
    if String.eqb sl_ot_platform_abstraction "" then ""
    else sl_ot_platform_abstraction +:+ "/efr32" in
  {[ "chip_root" := path_str chip_root;
     "efr32_sdk_root" := str_or_empty (efr32_sdk_root args);
     "wifi_sdk_root" := str_or_empty (wifi_sdk_root args);
     "matter_support_root" := path_str matter_support_root;
     "examples_plat_dir" :=
       path_str (chip_root </> Path "examples" </> Path "platform"
                 </> Path "silabs" </> Path "efr32");
     "silabs_plat_efr32_wifi_dir" :=
       path_str (chip_root </> Path "src" </> Path "platform" </> Path "silabs"
                 </> Path "efr32" </> Path "wifi");
     "silabs_common_plat_dir" :=
       path_str (chip_root </> Path "examples" </> Path "platform" </> Path "silabs");
     "silabs_platform_dir" :=
       path_str (chip_root </> Path "src" </> Path "platform" </> Path "silabs");
     "sl_ot_platform_abstraction" := sl_ot_platform_abstraction;
     "sl_ot_efr32_root" := sl_ot_efr32_root;
     "segger_rtt_root" := path_str chip_root ]}.

Definition efr32_fallback_combos : list (string * string * string) :=
  [ ("efr32mg24", "BRD4187A", "EFR32MG24B310F1536IM48");
    ("mgm24", "BRD4316A", "MGM240PB32VNA");
    ("efr32mg26", "BRD4117A", "EFR32MG26B222F1536IM48") ].

Definition get_efr32_board_vars `{Host} (args : arguments)
    (combo : string * string * string) : gmap string string :=
  let '(family, board, mcu) := combo in
  let chip_root := chip_root args in
  let matter_support_root :=
    chip_root </> Path "third_party" </> Path "silabs" </> Path "matter_support" in
  let board_support :=
    path_str (matter_support_root </> Path "board-support" </> Path "efr32"
              </> Path family </> Path board) in
  {[ "silabs_family" := family;
     "silabs_board" := board;
     "silabs_mcu" := mcu;
     "silabs_gen_folder" := board_support;
     "sl_pre_gen_path" := board_support;
     "slc_gen_path" :=
       path_str (chip_root </> Path "third_party" </> Path "silabs"
                 </> Path "slc_gen" </> Path board) ]}.

Definition efr32_board_var_substrings : list string :=
  [ "${silabs_family}"; "${silabs_board}"; "${silabs_mcu}";
    "${silabs_gen_folder}"; "${sl_pre_gen_path}"; "${slc_gen_path}" ].

Definition siwx917_base_vars `{Host} (args : arguments) (wifi : path)
    : gmap string string :=
  let chip_root := chip_root args in
  let matter_support_root :=
    chip_root </> Path "third_party" </> Path "silabs" </> Path "matter_support" in
  let _mbedtls_root :=
    match efr32_sdk_root args with
    | Some r =>
        path_str r +:+
        "/openthread_stack/util/third_party/ot-br-posix/third_party/openthread/repo/third_party/mbedtls/repo"
    | None => ""
    end in
  {[ "chip_root" := path_str chip_root;
     "efr32_sdk_root" := str_or_empty (efr32_sdk_root args);
     "wifi_sdk_root" := path_str wifi;
     "matter_support_root" := path_str matter_support_root;
     "examples_plat_dir" :=
       path_str (chip_root </> Path "examples" </> Path "platform"
                 </> Path "silabs" </> Path "SiWx917");
     "_mbedtls_root" := _mbedtls_root;
     "sl_si91x_psa_crypto_path" :=
       path_str wifi +:+ "/components/device/silabs/si91x/wireless/crypto" ]}.

Definition siwx917_fallback_boards : list string :=
  [ "BRD4342A"; "BRD2708A"; "BRD4338A"; "BRD2911A"; "BRD2605A"; "BRD4343A" ].

(** A combination of the second hardware line is a tuple of one board. *)
Definition get_siwx917_board_vars (board : string) : gmap string string :=
  {[ "silabs_board" := board ]}.

Definition tag_missing (gni_name : string) (m : list (string * string * string))
    : list (string * string * string * string) :=
  map (fun '(raw, ctx, msg) => (gni_name, raw, ctx, msg)) m.

(** Lines 365 and 366: the combinations found on disk, or the three of the
    fallback. *)
Definition efr32_board_combos `{Host} (args : arguments)
    : list (string * string * string) :=
  let matter_support_root :=
    chip_root args </> Path "third_party" </> Path "silabs" </> Path "matter_support" in
  match discover_board_combinations matter_support_root with
  | [] => efr32_fallback_combos
  | combos => combos
  end.

(** Line 398: the primary build description. *)
Definition efr32_gni_path `{Host} (args : arguments) : path :=
  default (chip_root args </> Path "third_party" </> Path "silabs"
           </> Path "efr32_sdk.gni")
          (gni args).

(** Line 421: the build description of the second hardware line. *)
Definition siwx917_gni `{Host} (args : arguments) : path :=
  chip_root args </> Path "third_party" </> Path "silabs" </> Path "SiWx917_sdk.gni".

(** Lines 438 to 440: the boards found on disk, or the six of the
    fallback. *)
Definition siwx917_boards `{Host} (args : arguments) : list string :=
  let matter_support_root :=
    chip_root args </> Path "third_party" </> Path "silabs" </> Path "matter_support" in
  match discover_siwx917_boards matter_support_root with
  | [] => siwx917_fallback_boards
  | boards => boards
  end.

(** How the [if not args.no_siwx917 and wifi_sdk_root] statement ends: the
    second build description is not validated, reading it raises, or the
    run is made and leaves a state. *)
Inductive second_run :=
  | NotRun
  | ReadRaised
  | Ran (t : tally).

Definition siwx917_run `{Host} (args : arguments) : second_run :=
  match wifi_sdk_root args with
  | Some wifi =>
      if negb (no_siwx917 args) then
        if path_exists (siwx917_gni args) then
          if read_fails (siwx917_gni args) then ReadRaised
          else
            Ran (run_tally (siwx917_base_vars args wifi) (siwx917_boards args)
                   ["${silabs_board}"] get_siwx917_board_vars (chip_root args)
                   (skip_slc_gen args) (skip_conditional args)
                   (read_text (siwx917_gni args)))
        else NotRun
      else NotRun
  | None => NotRun
  end.

(** [main] from line 345 on, with the status the process ends with.  A
    call of [read_text] that raises ends the run: the exception leaves
    [main], and the interpreter exits with status 1; the outcome then holds
    the accumulators as they stood.  The console output and the two report
    files are left out: they are written after every count is final and do
    not enter the returned value. *)
Definition main `{Host} (args : arguments) : outcome :=
  let chip_root := chip_root args in
  let efr32_board_combos := efr32_board_combos args in
  let gni_path := efr32_gni_path args in
  if negb (path_exists gni_path) then Outcome 1 [] 0 0 0 []
  else if read_fails gni_path then Outcome 1 [] 0 0 0 []
  else
    let content := read_text gni_path in
    let t :=
      run_tally (efr32_base_vars args) efr32_board_combos
        efr32_board_var_substrings (get_efr32_board_vars args) chip_root
        (skip_slc_gen args) (skip_conditional args) content in
    match siwx917_run args with
    | ReadRaised =>
        Outcome 1 (tag_missing "efr32_sdk.gni" (missing t))
          (checked t) (unresolved t) (conditional_skipped t) (calls t)
    | second =>
        let t2 := match second with Ran t2 => t2 | _ => empty_tally end in
        let all_missing :=
          tag_missing "efr32_sdk.gni" (missing t)
          ++ tag_missing "SiWx917_sdk.gni" (missing t2) in
        Outcome
          (match all_missing with [] => 0 | _ :: _ => 1 end)
          all_missing
          (checked t + checked t2)
          (unresolved t + unresolved t2)
          (conditional_skipped t + conditional_skipped t2)
          (calls t ++ calls t2)
    end.

(** ** Locating the repository and the SDK roots *)

Section RepoRoot.
Context `{Host}.
(** [p.parent] and the comparison [p == q] of two paths. *)
Variables (path_parent : path -> path) (path_eqb : path -> path -> bool).

(** The [for _ in range(10)] loop of [find_repo_root]: the candidate the
    loop returns, [None] when it is left by [break] or by its bound. *)
Fixpoint find_repo_root_loop (n : nat) (candidate : path) : option path :=
  match n with
  | 0 => None
  | S n' =>
      if path_exists (candidate </> Path "third_party" </> Path "silabs"
                      </> Path "efr32_sdk.gni")
      then Some candidate
      else
        let parent := path_parent candidate in
        if path_eqb parent candidate then None
        else find_repo_root_loop n' parent
  end.

Definition find_repo_root (script_dir : path) : path :=
  default script_dir (find_repo_root_loop 10 script_dir).
End RepoRoot.

(** The pattern of line 75 anchored at the start of [s], for the escaped
    [name]: the name, blanks, an equals sign, blanks, a quote, one or more
    characters other than a quote, a quote.  The result is group 1.  Each
    repetition is followed by a character it excludes, so the match at a
    position is unique. *)
Definition assignment_at (name s : string) : option string :=
  if Str.startswith s name then
    let r := Str.lstrip_with Str.isspace (Str.drop (String.length name) s) in
    if Str.startswith r "=" then
      match Str.lstrip_with Str.isspace (Str.drop 1 r) with
      | EmptyString => None
      | String q r' =>
          if Ascii.eqb q dquote then
            match Str.run_until dquote r' with
            | Some (String a k, _) => Some (String a k)
            | _ => None
            end
          else None
      end
    else None
  else None.

(** [re.search] with that pattern: group 1 of the leftmost match. *)
Fixpoint search_assignment (name text : string) : option string :=
  match assignment_at name text with
  | Some value => Some value
  | None =>
      match text with
      | EmptyString => None
      | String _ text' => search_assignment name text'
      end
  end.


(** ** A small host for the examples

    Paths are strings, joined with a separator; the directories, the files
    and the contents of the files are listed.  Reading anything but a file
    raises. *)
Definition sample_host (dirs files : list string) (texts : list (string * string))
    : Host :=
  {| path := string;
     Path := fun s => s;
     path_str := fun p => p;
     path_name := fun p => p;
     is_absolute := fun p => Str.startswith p "/";
     joinpath := fun p q => p +:+ "/" +:+ q;
     path_exists := fun p => bool_decide (p ∈ dirs ++ files);
     is_dir := fun p => bool_decide (p ∈ dirs);
     is_file := fun p => bool_decide (p ∈ files);
     iterdir := fun _ => [];
     read_text := fun p =>
       default "" (snd <$> List.find (fun e => String.eqb (fst e) p) texts);
     read_fails := fun p => negb (bool_decide (p ∈ files)) |}.

(** A string between two quotes, as it stands in a build description. *)
Definition quoted (s : string) : string :=
  String dquote s +:+ String dquote "".

(** A build description in three lines: a marker on a line of its own, the
    same directory listed twice on the next, a library and a target
    reference after a second marker. *)
Definition sample_description : string :=
  "include_dirs = [
  " +:+ quoted "${chip_root}/foo" +:+ ", " +:+ quoted "${chip_root}/foo" +:+ ",
libs += [ " +:+ quoted "${a}/x.a" +:+ ", " +:+ quoted "${a}:tgt" +:+ " ]".

(** A host whose primary build description has one expression, over a
    variable that no dictionary binds. *)
Definition unresolved_only_host : Host :=
  sample_host ["/r"] ["/r/third_party/silabs/efr32_sdk.gni"]
    [("/r/third_party/silabs/efr32_sdk.gni",
      "sources = [ " +:+ quoted "${unknown_root}/x.c" +:+ " ]")].

(** A host with the primary build description and the generated directory
    of the second fallback board only; the build description lists that
    directory once. *)
Definition slc_gen_host : Host :=
  sample_host ["/r"; "/r/third_party/silabs/slc_gen/BRD4316A/autogen"]
    ["/r/third_party/silabs/efr32_sdk.gni"]
    [("/r/third_party/silabs/efr32_sdk.gni",
      "include_dirs = [ " +:+ quoted "${slc_gen_path}/autogen" +:+ " ]")].

(** A host where the path of the primary build description is a
    directory. *)
Definition gni_directory_host : Host :=
  sample_host ["/r"; "/r/third_party/silabs/efr32_sdk.gni"] [] [].

(** A host whose primary build description lists one include directory,
    which is not on disk. *)
Definition missing_directory_host : Host :=
  sample_host ["/r"] ["/r/third_party/silabs/efr32_sdk.gni"]
    [("/r/third_party/silabs/efr32_sdk.gni",
      "include_dirs = [ " +:+ quoted "${chip_root}/foo" +:+ " ]")].

(** A host with the two build descriptions, and a wireless SDK root: the
    second one lists a library that is not on disk. *)
Definition missing_library_host : Host :=
  sample_host ["/r"; "/w"]
    ["/r/third_party/silabs/efr32_sdk.gni"; "/r/third_party/silabs/SiWx917_sdk.gni"]
    [("/r/third_party/silabs/efr32_sdk.gni", "");
     ("/r/third_party/silabs/SiWx917_sdk.gni",
      "libs += [ " +:+ quoted "${wifi_sdk_root}/lib/x.a" +:+ " ]")].

(** The text before the last separator of a path of the small host, when
    it has one. *)
Fixpoint before_last_slash (p : string) : option string :=
  match p with
  | EmptyString => None
  | String c p' =>
      match before_last_slash p' with
      | Some d => Some (String c d)
      | None => if Ascii.eqb c "/" then Some EmptyString else None
      end
  end.

(** The parent of a path of the small host; the root is its own parent. *)
Definition sample_parent (p : string) : string :=
  match before_last_slash p with
  | Some EmptyString => "/"
  | Some d => d
  | None => p
  end.


(** ** Notions used in the statements *)

(** A name of a placeholder: not empty, and without a closing brace. *)
Definition is_name (n : string) : Prop :=
  n <> "" /\ Str.contains "}" n = false.

(** The expression contains the placeholder of the variable [n]. *)
Definition references (expr n : string) : Prop :=
  is_name n /\ Str.contains (group0 n) expr = true.

(** No variable name of the dictionary contains the opening of a placeholder. *)
Definition clean_keys (vars_dict : gmap string string) : Prop :=
  forall k, is_Some (vars_dict !! k) -> Str.contains "${" k = false.


(** The [k]-th parent of a path. *)
Fixpoint ancestor `{Host} (path_parent : path -> path) (k : nat) (p : path)
    : path :=
  match k with
  | 0 => p
  | S k' => path_parent (ancestor path_parent k' p)
  end.

(** Whether the primary build description lies under a candidate root. *)
Definition has_gni `{Host} (candidate : path) : bool :=
  path_exists (candidate </> Path "third_party" </> Path "silabs"
               </> Path "efr32_sdk.gni").

(** A template is a list of literal texts, each followed by the name of a
    variable, and a last literal text.  [instantiate vars k segments last]
    is its text with the first [k] placeholders replaced by the values of
    their variables; with [k = 0] it is the expression as written. *)
Fixpoint instantiate (vars_dict : gmap string string) (k : nat)
    (segments : list (string * string)) (last : string) : string :=
  match segments with
  | [] => last
  | (text, name) :: segments' =>
      match k with
      | 0 => text +:+ group0 name +:+ instantiate vars_dict 0 segments' last
      | S k' =>
          text +:+ default "" (vars_dict !! name)
          +:+ instantiate vars_dict k' segments' last
      end
  end.

(** A template without a dollar sign outside its placeholders, over
    variables that are bound to values without a dollar sign. *)
Definition plain_template (vars_dict : gmap string string)
    (segments : list (string * string)) (last : string) : Prop :=
  Forall (fun seg =>
            Str.contains "$" (fst seg) = false
            /\ is_name (snd seg)
            /\ exists v, vars_dict !! snd seg = Some v
                         /\ Str.contains "$" v = false)
    segments
  /\ Str.contains "$" last = false.

(** The dictionaries that [main] hands to [resolve_path]: the base bindings
    of either hardware line, alone or under the bindings of a board. *)
Definition main_dictionary `{Host} (args : arguments)
    (d : gmap string string) : Prop :=
  d = efr32_base_vars args
  \/ (exists combo,
        d = vars_with_board (efr32_base_vars args) (get_efr32_board_vars args)
              combo)
  \/ (exists wifi, d = siwx917_base_vars args wifi)
  \/ (exists wifi board,
        d = vars_with_board (siwx917_base_vars args wifi)
              get_siwx917_board_vars board).

(** The invariant of the driver loop: every report was checked; each pair
    met counts at most once among the unresolved, the skipped and the
    reported; the reports are about pairs met, each pair at most once. *)
Definition accounted (t : tally) : Prop :=
  length (missing t) <= checked t
  /\ unresolved t + conditional_skipped t + length (missing t) <= size (seen t)
  /\ Forall (fun m => fst m ∈ seen t) (missing t)
  /\ NoDup (map fst (missing t)).

(** What a line contributes under a context: the tidied candidates that
    are accepted, in the order of their matches. *)
Definition emitted (context line : string) : list (string * string) :=
  List.map (fun raw => (raw, context))
    (List.filter accepts (List.map tidy (finditer_quoted 0 line))).

(** The reports of the run over the primary build description. *)
Definition efr32_reports `{Host} (args : arguments)
    : list (string * string * string) :=
  (run_gni_validation (efr32_base_vars args) (efr32_board_combos args)
     efr32_board_var_substrings (get_efr32_board_vars args) (chip_root args)
     (skip_slc_gen args) (skip_conditional args)
     (read_text (efr32_gni_path args))).1.1.1.

(** The reports of the run over the second build description: there are
    none unless a wireless SDK root is at hand, the second run is not
    switched off and the file exists. *)
Definition siwx917_reports `{Host} (args : arguments)
    : list (string * string * string) :=
  match wifi_sdk_root args with
  | Some wifi =>
      if negb (no_siwx917 args) && path_exists (siwx917_gni args) then
        (run_gni_validation (siwx917_base_vars args wifi) (siwx917_boards args)
           ["${silabs_board}"] get_siwx917_board_vars (chip_root args)
           (skip_slc_gen args) (skip_conditional args)
           (read_text (siwx917_gni args))).1.1.1
      else []
  | None => []
  end.

(** A build description that exists and is to be validated cannot be
    read. *)
Definition read_raises `{Host} (args : arguments) : bool :=
  path_exists (efr32_gni_path args)
  && (read_fails (efr32_gni_path args)
      || match wifi_sdk_root args with
         | Some _ =>
             negb (no_siwx917 args) && path_exists (siwx917_gni args)
             && read_fails (siwx917_gni args)
         | None => false
         end).

(** * Properties *)

(** Let [simpl] unfold the concatenation of strings on a constructor. *)
#[local] Arguments String.append !_ _ / : simpl nomatch.

(** ** Facts about the string operations *)

Module StrFacts.
Import Str.

Lemma app_assoc (a b c : string) : (a +:+ b) +:+ c = a +:+ (b +:+ c).
Proof. induction a as [|x a IH]; simpl; [reflexivity | now rewrite IH]. Qed.

Lemma app_nil_r (a : string) : a +:+ "" = a.
Proof. induction a as [|x a IH]; simpl; [reflexivity | now rewrite IH]. Qed.

Lemma startswith_iff (s p : string) :
  startswith s p = true <-> exists r, s = p +:+ r.
Proof.
  revert s. induction p as [|c p IH]; intros s; simpl.
  - split; [intros _; now exists s | reflexivity].
  - destruct s as [|a s].
    + split; [discriminate | intros [r Hr]; discriminate].
    + rewrite andb_true_iff, IH. split.
      * intros [Hc [r ->]]. apply Ascii.eqb_eq in Hc as ->. now exists r.
      * intros [r Hr]. injection Hr as -> ->. split; [apply Ascii.eqb_refl | now exists r].
Qed.

Lemma startswith_app (p r : string) : startswith (p +:+ r) p = true.
Proof. apply startswith_iff. now exists r. Qed.

Lemma startswith_app_l (t u p : string) :
  startswith t p = true -> startswith (t +:+ u) p = true.
Proof.
  rewrite !startswith_iff. intros [r ->]. exists (r +:+ u). apply app_assoc.
Qed.

Lemma contains_iff (sub s : string) :
  contains sub s = true <-> exists a b, s = a +:+ sub +:+ b.
Proof.
  induction s as [|c s IH]; simpl.
  - rewrite orb_false_r, startswith_iff. split.
    + intros [r Hr]. now exists "", r.
    + intros [a [b Hab]]. destruct a; [now exists b | discriminate].
  - rewrite orb_true_iff, startswith_iff, IH. split.
    + intros [[r Hr] | [a [b ->]]]; [now exists "", r | now exists (String c a), b].
    + intros [[|x a] [b Hab]]; simpl in Hab.
      * left. now exists b.
      * right. injection Hab as -> ->. now exists a, b.
Qed.

Lemma contains_tail (sub s : string) (c : ascii) :
  contains sub (String c s) = false -> contains sub s = false.
Proof. simpl. intros H. now apply orb_false_iff in H. Qed.

Lemma contains_app_l (sub t u : string) :
  contains sub (t +:+ u) = false -> contains sub t = false.
Proof.
  intros H. destruct (contains sub t) eqn:E; [|reflexivity].
  apply contains_iff in E as [a [b ->]].
  assert (contains sub ((a +:+ sub +:+ b) +:+ u) = true) as H'; [|congruence].
  apply contains_iff. exists a, (b +:+ u). now rewrite !app_assoc.
Qed.

Lemma contains_app_r (sub t u : string) :
  contains sub (t +:+ u) = false -> contains sub u = false.
Proof.
  induction t as [|c t IH]; simpl; [trivial|].
  intros H. apply IH. now apply orb_false_iff in H.
Qed.

Lemma before_sep_prefix (sep s : string) :
  exists r, s = before_sep sep s +:+ r.
Proof.
  induction s as [|c s [r IH]]; simpl.
  - destruct (startswith "" sep); now exists "".
  - destruct (startswith (String c s) sep); [now exists (String c s)|].
    exists r. simpl. now rewrite <- IH.
Qed.

Lemma contains_before_sep (sep s : string) :
  sep <> "" -> contains sep (before_sep sep s) = false.
Proof.
  intros Hsep. induction s as [|c s IH]; simpl.
  - destruct sep; [contradiction|]. reflexivity.
  - destruct (startswith (String c s) sep) eqn:E.
    + destruct sep; [contradiction|]. reflexivity.
    + change (contains sep (String c (before_sep sep s)))
        with (startswith (String c (before_sep sep s)) sep
              || contains sep (before_sep sep s)).
      rewrite IH, orb_false_r.
      destruct (startswith (String c (before_sep sep s)) sep) eqn:E'; [|reflexivity].
      destruct (before_sep_prefix sep s) as [r Hr].
      apply startswith_app_l with (u := r) in E'. simpl in E'.
      rewrite <- Hr in E'. simpl in E. congruence.
Qed.

Lemma lstrip_with_suffix (f : ascii -> bool) (s : string) :
  exists a, s = a +:+ lstrip_with f s.
Proof.
  induction s as [|c s [a IH]]; simpl; [now exists ""|].
  destruct (f c); [|now exists ""].
  exists (String c a). simpl. now rewrite <- IH.
Qed.

Lemma rstrip_with_prefix (f : ascii -> bool) (s : string) :
  exists r, s = rstrip_with f s +:+ r.
Proof.
  induction s as [|c s [r IH]]; simpl; [now exists ""|].
  destruct (rstrip_with f s) as [|b t].
  - destruct (f c); [now exists (String c s)|]. exists r. simpl. now rewrite IH at 1.
  - exists r. simpl. simpl in IH. now rewrite <- IH.
Qed.

Lemma drop_last_prefix (s : string) : exists r, s = drop_last s +:+ r.
Proof.
  induction s as [|c s [r IH]]; simpl; [now exists ""|].
  destruct s as [|b s]; [now exists (String c "")|].
  exists r. simpl. simpl in IH. now rewrite <- IH.
Qed.

Lemma contains_lstrip (sub s : string) f :
  contains sub s = false -> contains sub (lstrip_with f s) = false.
Proof.
  destruct (lstrip_with_suffix f s) as [a Ha]. rewrite Ha at 1.
  apply contains_app_r.
Qed.

Lemma contains_rstrip (sub s : string) f :
  contains sub s = false -> contains sub (rstrip_with f s) = false.
Proof.
  destruct (rstrip_with_prefix f s) as [a Ha]. rewrite Ha at 1.
  apply contains_app_l.
Qed.

Lemma contains_strip (sub s : string) :
  contains sub s = false -> contains sub (strip s) = false.
Proof. intros H. unfold strip. now apply contains_rstrip, contains_lstrip. Qed.

Lemma contains_drop_last (sub s : string) :
  contains sub s = false -> contains sub (drop_last s) = false.
Proof.
  destruct (drop_last_prefix s) as [a Ha]. rewrite Ha at 1.
  apply contains_app_l.
Qed.

Lemma endswith_nil (suf : string) : endswith "" suf = String.eqb "" suf.
Proof. unfold endswith. apply orb_false_r. Qed.

Lemma endswith_cons (c : ascii) (s suf : string) :
  endswith (String c s) suf = String.eqb (String c s) suf || endswith s suf.
Proof. reflexivity. Qed.

Lemma endswith_iff (s suf : string) :
  endswith s suf = true <-> exists a, s = a +:+ suf.
Proof.
  induction s as [|c s IH].
  - rewrite endswith_nil, String.eqb_eq. split.
    + intros <-. now exists "".
    + intros [a Ha]. destruct a; [assumption | discriminate].
  - rewrite endswith_cons, orb_true_iff, String.eqb_eq, IH. split.
    + intros [<- | [a ->]]; [now exists "" | now exists (String c a)].
    + intros [[|x a] Ha]; simpl in Ha; [now left|].
      right. injection Ha as -> ->. now exists a.
Qed.

Lemma rstrip_with_keeps (f : ascii -> bool) (t : string) (c : ascii) :
  f c = false -> rstrip_with f (t +:+ String c "") = t +:+ String c "".
Proof.
  intros Hc. induction t as [|x t IH]; simpl.
  - now rewrite Hc.
  - rewrite IH. destruct t; reflexivity.
Qed.

Lemma endswith_lstrip (f : ascii -> bool) (s suf : string) (c : ascii) :
  f c = false -> endswith s (String c suf) = true ->
  endswith (lstrip_with f s) (String c suf) = true.
Proof.
  intros Hc. induction s as [|a s IH]; [trivial|].
  simpl lstrip_with. destruct (f a) eqn:Ha; [|trivial].
  rewrite endswith_cons. intros H. apply IH.
  apply orb_true_iff in H as [H|H]; [|assumption].
  apply String.eqb_eq in H. congruence.
Qed.

End StrFacts.

(** ** Facts about the resolver *)

Module ResolveFacts.
Import Str StrFacts.

(** Induction over strings two characters at a time. *)
Lemma string_ind2 (P : string -> Prop) :
  P "" -> (forall a, P (String a "")) ->
  (forall a b s, P s -> P (String b s) -> P (String a (String b s))) ->
  forall s, P s.
Proof.
  intros H0 H1 H2 s.
  assert (P s /\ forall c, P (String c s)) as [Hs _]; [|exact Hs].
  induction s as [|b s [IH1 IH2]]; split; auto.
Qed.

Lemma rds_head (s : string) (c : ascii) :
  startswith (replace_double_slash s) (String c "") = startswith s (String c "").
Proof.
  destruct s as [|a [|b s]]; try reflexivity.
  simpl. destruct (Ascii.eqb_spec a "/") as [->|Ha]; simpl; [|reflexivity].
  destruct (Ascii.eqb b "/"); reflexivity.
Qed.

Lemma contains_cons (sub s : string) (c : ascii) :
  contains sub (String c s) = startswith (String c s) sub || contains sub s.
Proof. reflexivity. Qed.

Lemma startswith_two (a x y : ascii) (s : string) :
  startswith (String a s) (String x (String y "")) =
  Ascii.eqb a x && startswith s (String y "").
Proof. reflexivity. Qed.

(** Collapsing separators creates no placeholder opening. *)
Lemma rds_no_opening (s : string) :
  contains "${" s = false -> contains "${" (replace_double_slash s) = false.
Proof.
  induction s as [| a | a b s IH1 IH2] using string_ind2; try (intros; assumption).
  intros H. pose proof (contains_tail _ _ _ H) as H1.
  pose proof (contains_tail _ _ _ H1) as H2.
  change (replace_double_slash (String a (String b s)))
    with (if Ascii.eqb a "/" && Ascii.eqb b "/"
          then String "/"%char (replace_double_slash s)
          else String a (replace_double_slash (String b s))).
  destruct (Ascii.eqb a "/" && Ascii.eqb b "/") eqn:E.
  - rewrite contains_cons, IH1 by assumption. reflexivity.
  - rewrite contains_cons, IH2, orb_false_r by assumption.
    rewrite startswith_two, rds_head, <- startswith_two.
    rewrite contains_cons in H. now apply orb_false_iff in H.
Qed.

(** A string without a doubled separator is left as it is. *)
Lemma rds_id (s : string) :
  contains "//" s = false -> replace_double_slash s = s.
Proof.
  induction s as [| a | a b s IH1 IH2] using string_ind2; try reflexivity.
  intros H. pose proof (contains_tail _ _ _ H) as H1.
  change (replace_double_slash (String a (String b s)))
    with (if Ascii.eqb a "/" && Ascii.eqb b "/"
          then String "/"%char (replace_double_slash s)
          else String a (replace_double_slash (String b s))).
  rewrite contains_cons in H. apply orb_false_iff in H as [H _].
  simpl in H. rewrite andb_true_r in H. rewrite H, IH2 by assumption. reflexivity.
Qed.

Lemma resolve_loop_done vars n (out : string) :
  contains "${" out = false -> resolve_loop vars n out = (Some out, 0).
Proof. intros H. destruct n; simpl; now rewrite H. Qed.

Lemma resolve_loop_unfold vars n (out : string) :
  resolve_loop vars (S n) out =
  if contains "${" out then
    match re_search_placeholder out with
    | None => (Some out, 1)
    | Some key =>
        match vars !! key with
        | None => (None, 1)
        | Some value =>
            (fst (resolve_loop vars n (replace_first out (group0 key) value)),
             S (snd (resolve_loop vars n (replace_first out (group0 key) value))))
        end
    end
  else (Some out, 0).
Proof.
  simpl. destruct (contains "${" out); [|reflexivity].
  destruct (re_search_placeholder out) as [key|]; [|reflexivity].
  destruct (vars !! key) as [value|]; [|reflexivity].
  now destruct (resolve_loop vars n _).
Qed.

Lemma resolve_loop_bound vars n (out : string) :
  snd (resolve_loop vars n out) <= n.
Proof.
  revert out. induction n as [|n IH]; intros out.
  - simpl. destruct (contains "${" out); simpl; lia.
  - rewrite resolve_loop_unfold. destruct (contains "${" out); simpl; [|lia].
    destruct (re_search_placeholder out) as [key|]; simpl; [|lia].
    destruct (vars !! key) as [value|]; simpl; [|lia].
    specialize (IH (replace_first out (group0 key) value)). lia.
Qed.

(** When the loop is left by its bound, the working string is returned
    as it stands. *)
Lemma resolve_path_spec (expr : string) vars :
  resolve_path expr vars =
  match fst (resolve_loop vars 20 expr) with
  | None => None
  | Some out =>
      if contains "${" out then None else Some (replace_double_slash out)
  end.
Proof. reflexivity. Qed.

Lemma run_until_spec c (s k r : string) :
  run_until c s = Some (k, r) ->
  s = k +:+ String c r /\ contains (String c "") k = false.
Proof.
  revert k r. induction s as [|a s IH]; intros k r; simpl; [discriminate|].
  destruct (Ascii.eqb_spec a c) as [->|Hac].
  - intros [= <- <-]. split; reflexivity.
  - destruct (run_until c s) as [[k' r']|]; [|discriminate].
    intros [= <- <-]. destruct (IH _ _ eq_refl) as [-> Hk]. split; [reflexivity|].
    rewrite contains_cons, Hk, orb_false_r. simpl.
    rewrite andb_true_r. now apply Ascii.eqb_neq.
Qed.

Lemma run_until_app c (x y : string) :
  run_until c (x +:+ y) =
  match run_until c x with
  | Some (k, r) => Some (k, r +:+ y)
  | None =>
      match run_until c y with
      | Some (k, r) => Some (x +:+ k, r)
      | None => None
      end
  end.
Proof.
  induction x as [|a x IH]; simpl.
  - now destruct (run_until c y) as [[? ?]|].
  - destruct (Ascii.eqb a c); [reflexivity|]. rewrite IH.
    destruct (run_until c x) as [[? ?]|]; [reflexivity|].
    now destruct (run_until c y) as [[? ?]|].
Qed.

Lemma run_until_name c (k r : string) :
  contains (String c "") k = false -> run_until c (k +:+ String c r) = Some (k, r).
Proof.
  induction k as [|a k IH]; simpl; intros H.
  - now rewrite Ascii.eqb_refl.
  - rewrite andb_true_r in H. apply orb_false_iff in H as [Ha Hk].
    rewrite Ha, IH by assumption. reflexivity.
Qed.

Lemma placeholder_at_name (n post : string) :
  is_name n -> placeholder_at (group0 n +:+ post) = Some n.
Proof.
  intros [Hne Hn]. unfold placeholder_at, group0. simpl.
  rewrite app_assoc. simpl. rewrite run_until_name by assumption.
  destruct n; [contradiction | reflexivity].
Qed.

Lemma placeholder_at_spec (s key : string) :
  placeholder_at s = Some key -> is_name key /\ exists r, s = group0 key +:+ r.
Proof.
  unfold placeholder_at. destruct (startswith s "${") eqn:E; [|discriminate].
  apply startswith_iff in E as [s2 ->]. simpl.
  destruct (run_until "}" s2) as [[[|a k] r]|] eqn:Er; try discriminate.
  intros [= <-]. apply run_until_spec in Er as [-> Hk]. split.
  - split; [discriminate | assumption].
  - exists r. unfold group0. simpl. now rewrite app_assoc.
Qed.

Lemma re_search_unfold (s : string) :
  re_search_placeholder s =
  match placeholder_at s with
  | Some key => Some key
  | None =>
      match s with
      | EmptyString => None
      | String _ s' => re_search_placeholder s'
      end
  end.
Proof. destruct s; reflexivity. Qed.

Lemma re_search_name (s key : string) :
  re_search_placeholder s = Some key -> is_name key.
Proof.
  induction s as [|a s IH]; rewrite re_search_unfold.
  - destruct (placeholder_at "") eqn:E; [|discriminate].
    intros [= <-]. now apply placeholder_at_spec in E.
  - destruct (placeholder_at (String a s)) eqn:E; [|exact IH].
    intros [= <-]. now apply placeholder_at_spec in E.
Qed.

Lemma drop_app (p r : string) : drop (String.length p) (p +:+ r) = r.
Proof. induction p; simpl; [now destruct r | assumption]. Qed.

Lemma replace_first_here (p r new : string) :
  replace_first (p +:+ r) p new = new +:+ r.
Proof.
  destruct (p +:+ r) eqn:E; simpl; rewrite <- E, startswith_app, drop_app;
    reflexivity.
Qed.

Lemma replace_first_cons (c : ascii) (s old new : string) :
  startswith (String c s) old = false ->
  replace_first (String c s) old new = String c (replace_first s old new).
Proof. intros H. simpl. now rewrite H. Qed.


Lemma startswith_cons (a x : ascii) (s p : string) :
  startswith (String a s) (String x p) = Ascii.eqb a x && startswith s p.
Proof. reflexivity. Qed.

Lemma rds_unfold (a b : ascii) (s : string) :
  replace_double_slash (String a (String b s)) =
  if Ascii.eqb a "/" && Ascii.eqb b "/"
  then String "/"%char (replace_double_slash s)
  else String a (replace_double_slash (String b s)).
Proof. reflexivity. Qed.

(** A doubled separator is left only where three separators stood. *)
Lemma rds_leaves_double (s : string) :
  contains "//" (replace_double_slash s) = true -> contains "///" s = true.
Proof.
  induction s as [| a | a b s IH1 IH2] using string_ind2.
  1: intros H; discriminate H.
  1: { intros H. exfalso. revert H. cbn. now destruct (Ascii.eqb a "/"). }
  rewrite rds_unfold.
  destruct (Ascii.eqb_spec a "/") as [->|Ha];
    [destruct (Ascii.eqb_spec b "/") as [->|Hb]|]; cbn [andb].
  - rewrite contains_cons, startswith_two, rds_head. cbn [Ascii.eqb andb].
    change (Ascii.eqb "/" "/") with true. cbn [andb].
    intros [H|H]%orb_true_iff.
    + rewrite contains_cons. apply orb_true_iff. left.
      rewrite !startswith_cons. change (Ascii.eqb "/" "/") with true. exact H.
    + rewrite !contains_cons. apply IH1 in H. rewrite H. now rewrite !orb_true_r.
  - rewrite contains_cons, startswith_two, rds_head.
    intros [H|H]%orb_true_iff.
    + apply andb_true_iff in H as [_ H]. rewrite startswith_cons in H.
      apply andb_true_iff in H as [H _]. apply Ascii.eqb_eq in H. contradiction.
    + rewrite contains_cons. apply IH2 in H. rewrite H. now rewrite orb_true_r.
  - rewrite contains_cons, startswith_two.
    destruct (Ascii.eqb_spec a "/") as [E|_]; [contradiction|]. cbn [andb orb].
    intros H. rewrite contains_cons. apply IH2 in H. rewrite H. now rewrite orb_true_r.
Qed.

(** Three separators in a row leave a doubled one. *)
Lemma rds_keeps_double (s : string) :
  contains "///" s = true -> contains "//" (replace_double_slash s) = true.
Proof.
  induction s as [| a | a b s IH1 IH2] using string_ind2.
  1: intros H; discriminate H.
  1: { intros H. exfalso. revert H. cbn. now destruct (Ascii.eqb a "/"). }
  rewrite rds_unfold, contains_cons.
  intros [H|H]%orb_true_iff.
  - rewrite !startswith_cons in H.
    apply andb_true_iff in H as [Ea H]. apply andb_true_iff in H as [Eb H].
    rewrite Ea, Eb. cbn [andb].
    rewrite contains_cons, startswith_two, rds_head.
    change (Ascii.eqb "/" "/") with true. cbn [andb].
    destruct s as [|c s]; [discriminate H|].
    rewrite startswith_cons in H |- *. rewrite H. reflexivity.
  - destruct (Ascii.eqb a "/" && Ascii.eqb b "/") eqn:E.
    + apply andb_true_iff in E as [Ea Eb].
      rewrite contains_cons in H. apply orb_true_iff in H as [H|H].
      * rewrite !startswith_cons in H.
        apply andb_true_iff in H as [_ H].
        destruct s as [|c s]; [discriminate H|].
        rewrite startswith_cons in H. apply andb_true_iff in H as [Ec H].
        destruct s as [|d s]; [discriminate H|].
        rewrite startswith_cons in H. apply andb_true_iff in H as [Ed _].
        rewrite rds_unfold, Ec, Ed. cbn [andb].
        rewrite contains_cons. reflexivity.
      * rewrite contains_cons, (IH1 H). now rewrite orb_true_r.
    + rewrite contains_cons, (IH2 H). now rewrite orb_true_r.
Qed.

End ResolveFacts.

Module ResolveInvariant.
Import Str StrFacts ResolveFacts.

Lemma run_until_group0 (n post : string) :
  is_name n -> run_until "}" (group0 n +:+ post) = Some ("${" +:+ n, post).
Proof.
  intros [_ Hn]. unfold group0.
  change (("${" +:+ n +:+ "}") +:+ post)
    with (String "$" (String "{" ((n +:+ "}") +:+ post))).
  rewrite app_assoc. simpl.
  now rewrite (run_until_name "}" n post Hn).
Qed.

Lemma contains_group0 (pre n post : string) :
  contains "${" (pre +:+ group0 n +:+ post) = true.
Proof.
  apply contains_iff. exists pre, ((n +:+ "}") +:+ post). reflexivity.
Qed.

(** One substitution leaves the placeholder of an unbound variable in
    place, when no variable name contains the opening of a placeholder. *)
Lemma substitute_keeps vars (n post : string) :
  is_name n -> vars !! n = None -> clean_keys vars ->
  forall pre key v,
    re_search_placeholder (pre +:+ group0 n +:+ post) = Some key ->
    vars !! key = Some v ->
    exists pre',
      replace_first (pre +:+ group0 n +:+ post) (group0 key) v
      = pre' +:+ group0 n +:+ post.
Proof.
  intros Hn Hnone Hclean pre.
  induction pre as [|c pre IH]; intros key v Hs Hv.
  - change ("" +:+ group0 n +:+ post) with (group0 n +:+ post) in Hs.
    rewrite re_search_unfold, placeholder_at_name in Hs by assumption.
    injection Hs as <-. congruence.
  - rewrite re_search_unfold in Hs.
    destruct (placeholder_at (String c pre +:+ group0 n +:+ post)) as [key'|] eqn:E.
    + injection Hs as ->. destruct (placeholder_at_spec _ _ E) as [Hkey [r Hr]].
      rewrite Hr, replace_first_here.
      unfold group0 in Hr at 2. simpl in Hr. injection Hr as -> Hr.
      destruct pre as [|c2 pre2].
      { unfold group0 in Hr. simpl in Hr. discriminate. }
      simpl in Hr. injection Hr as -> Hr.
      apply (f_equal (run_until "}")) in Hr.
      change (String "$" (String "{" ((n +:+ "}") +:+ post)))
        with (group0 n +:+ post) in Hr.
      rewrite run_until_app, run_until_group0 in Hr by assumption.
      rewrite (app_assoc key "}" r) in Hr.
      change ("}" +:+ r) with (String "}" r) in Hr.
      rewrite (run_until_name "}" key r (proj2 Hkey)) in Hr.
      destruct (run_until "}" pre2) as [[k r']|].
      * injection Hr as -> <-. exists (v +:+ r'). now rewrite (app_assoc v r').
      * injection Hr as Hk _.
        assert (contains "${" key = true) as Hc.
        { rewrite <- Hk. apply contains_iff. now exists pre2, n. }
        rewrite (Hclean _ (ex_intro _ v Hv)) in Hc. discriminate.
    + simpl in Hs.
      assert (startswith (String c pre +:+ group0 n +:+ post) (group0 key) = false) as Hsw.
      { destruct (startswith _ (group0 key)) eqn:Hsw; [|reflexivity].
        apply startswith_iff in Hsw as [r Hr].
        rewrite Hr, placeholder_at_name in E by (eapply re_search_name; eassumption).
        discriminate. }
      destruct (IH _ _ Hs Hv) as [pre' Hpre'].
      exists (String c pre').
      change (String c pre +:+ group0 n +:+ post)
        with (String c (pre +:+ group0 n +:+ post)) in Hsw |- *.
      rewrite replace_first_cons, Hpre' by assumption. reflexivity.
Qed.

Lemma resolve_loop_keeps vars (n post : string) :
  is_name n -> vars !! n = None -> clean_keys vars ->
  forall fuel pre,
    match fst (resolve_loop vars fuel (pre +:+ group0 n +:+ post)) with
    | None => True
    | Some out => exists pre', out = pre' +:+ group0 n +:+ post
    end.
Proof.
  intros Hn Hnone Hclean fuel.
  induction fuel as [|fuel IH]; intros pre.
  - simpl. destruct (contains "${" _); simpl; now exists pre.
  - rewrite resolve_loop_unfold.
    destruct (contains "${" _); [|now exists pre].
    destruct (re_search_placeholder _) as [key|] eqn:Hs; [|now exists pre].
    destruct (vars !! key) as [v|] eqn:Hv; [|exact I].
    cbn [fst].
    destruct (substitute_keeps vars n post Hn Hnone Hclean pre key v Hs Hv)
      as [pre' ->].
    apply IH.
Qed.

Lemma resolve_path_unbound vars (pre n post : string) :
  is_name n -> vars !! n = None -> clean_keys vars ->
  resolve_path (pre +:+ group0 n +:+ post) vars = None.
Proof.
  intros Hn Hnone Hclean. rewrite resolve_path_spec.
  pose proof (resolve_loop_keeps vars n post Hn Hnone Hclean 20 pre) as H.
  destruct (fst (resolve_loop vars 20 _)) as [out|]; [|reflexivity].
  destruct H as [pre' ->]. now rewrite contains_group0.
Qed.

Lemma resolve_path_complete (expr : string) vars (r : string) :
  resolve_path expr vars = Some r -> contains "${" r = false.
Proof.
  rewrite resolve_path_spec.
  destruct (fst (resolve_loop vars 20 expr)) as [out|]; [|discriminate].
  destruct (contains "${" out) eqn:E; [discriminate|].
  intros [= <-]. now apply rds_no_opening.
Qed.

(** Under a binding of a variable to its own placeholder the working
    string never changes. *)
Lemma resolve_loop_self vars (x : string) :
  is_name x -> vars !! x = Some (group0 x) ->
  forall fuel, resolve_loop vars fuel (group0 x) = (Some (group0 x), fuel).
Proof.
  intros Hx Hv fuel. induction fuel as [|fuel IH].
  - reflexivity.
  - rewrite resolve_loop_unfold.
    change (contains "${" (group0 x)) with true. cbv iota.
    rewrite re_search_unfold.
    rewrite <- (app_nil_r (group0 x)) at 1.
    rewrite placeholder_at_name by assumption. rewrite Hv.
    assert (replace_first (group0 x) (group0 x) (group0 x) = group0 x) as ->.
    { rewrite <- (app_nil_r (group0 x)) at 1.
      now rewrite replace_first_here, app_nil_r. }
    rewrite IH. reflexivity.
Qed.

End ResolveInvariant.

(** * The resolver: claims C2, C3 and C8 *)

(** C2, as amended.  A result of [resolve_path] never contains the opening
    of a placeholder, so no result is partially substituted; and when no
    variable name of the dictionary contains such an opening, an expression
    that references a variable absent from the dictionary resolves to
    [None].  The function is total: no input raises. *)
Theorem resolve_path_unbound_is_none (expr : string) (vars : gmap string string) :
  (forall r, resolve_path expr vars = Some r -> Str.contains "${" r = false)
  /\ (clean_keys vars ->
      forall n, references expr n -> vars !! n = None ->
      resolve_path expr vars = None).
Proof.
  split.
  - intros r. apply ResolveInvariant.resolve_path_complete.
  - intros Hclean n [Hn Href] Hnone.
    apply StrFacts.contains_iff in Href as [pre [post ->]].
    now apply ResolveInvariant.resolve_path_unbound.
Qed.

Lemma resolve_path_unbound_is_none_witness :
  resolve_path "${chip_root}/lib/${silabs_board}/x.a" {[ "chip_root" := "/r" ]} = None.
Proof.
  apply (proj2 (resolve_path_unbound_is_none _ _)) with (n := "silabs_board").
  - intros k [v Hk]. apply lookup_singleton_Some in Hk as [<- _]. reflexivity.
  - split; [split; [discriminate | reflexivity] | reflexivity].
  - reflexivity.
Defined.

(** C2 as stated fails: the expression references the variable [b], which
    the dictionary does not bind, and yet it resolves.  The value of [a]
    opens a placeholder that the text after it closes, and the name so
    formed is bound. *)
Lemma resolve_path_unbound_yet_resolved :
  references "${a}${b}" "b"
  /\ ({[ "a" := "${c"; "c${b" := "foo" ]} : gmap string string) !! "b" = None
  /\ resolve_path "${a}${b}" {[ "a" := "${c"; "c${b" := "foo" ]} = Some "foo".
Proof.
  split; [split; [split; [discriminate | reflexivity] | reflexivity] |].
  split; vm_compute; reflexivity.
Qed.

(** C3, as amended.  Resolving a result again collapses doubled separators
    once more; it returns the same string when the result has no doubled
    separator left.  A doubled separator is left in the result exactly when
    the string the substitutions ended with had three separators in a
    row. *)
Theorem resolve_path_again (expr : string) (vars : gmap string string) (r : string) :
  resolve_path expr vars = Some r ->
  resolve_path r vars = Some (Str.replace_double_slash r)
  /\ (Str.contains "//" r = false -> resolve_path r vars = Some r)
  /\ exists out : string,
       fst (resolve_loop vars 20 expr) = Some out
       /\ r = Str.replace_double_slash out
       /\ (Str.contains "//" r = true <-> Str.contains "///" out = true).
Proof.
  intros H0. pose proof (ResolveInvariant.resolve_path_complete _ _ _ H0) as H.
  assert (resolve_path r vars = Some (Str.replace_double_slash r)) as Hr.
  { rewrite ResolveFacts.resolve_path_spec, ResolveFacts.resolve_loop_done by assumption.
    cbn [fst]. now rewrite H. }
  split; [exact Hr|]. split.
  - intros Hs. now rewrite Hr, ResolveFacts.rds_id.
  - unfold resolve_path in H0.
    destruct (fst (resolve_loop vars 20 expr)) as [out|]; [|discriminate H0].
    destruct (Str.contains "${" out); [discriminate H0|].
    injection H0 as <-. exists out. split; [reflexivity|]. split; [reflexivity|].
    split; [apply ResolveFacts.rds_leaves_double|apply ResolveFacts.rds_keeps_double].
Qed.

Lemma resolve_path_again_witness :
  resolve_path "/r/foo" {[ "chip_root" := "/r" ]} = Some "/r/foo".
Proof.
  refine (proj1 (proj2 (resolve_path_again "${chip_root}//foo" _ "/r/foo" _)) _).
  - vm_compute. reflexivity.
  - reflexivity.
Defined.

(** C3 as stated fails: a root that ends in a separator, followed by a
    doubled separator, resolves to a path without placeholders that
    resolves to a different path. *)
Lemma resolve_path_not_idempotent :
  resolve_path "${efr32_sdk_root}//platform" {[ "efr32_sdk_root" := "/sdk/" ]}
  = Some "/sdk//platform"
  /\ resolve_path "/sdk//platform" {[ "efr32_sdk_root" := "/sdk/" ]}
     = Some "/sdk/platform".
Proof. split; vm_compute; reflexivity. Qed.

(** C8.  The loop of [resolve_path] runs its body at most 20 times on every
    input, and the function is total; whenever the loop is left with a
    placeholder opening in the working string the result is [None]; under
    a binding of a variable to its own placeholder all 20 iterations are
    spent and the result is [None]. *)
Theorem resolve_path_bounded (expr : string) (vars : gmap string string) :
  resolve_iterations expr vars <= 20
  /\ (forall out, fst (resolve_loop vars 20 expr) = Some out ->
        Str.contains "${" out = true -> resolve_path expr vars = None)
  /\ (forall x, is_name x -> vars !! x = Some (group0 x) ->
        resolve_iterations (group0 x) vars = 20
        /\ fst (resolve_loop vars 20 (group0 x)) = Some (group0 x)
        /\ resolve_path (group0 x) vars = None).
Proof.
  split; [apply ResolveFacts.resolve_loop_bound|]. split.
  - intros out Hout Hc. rewrite ResolveFacts.resolve_path_spec, Hout.
    now rewrite Hc.
  - intros x Hx Hv. unfold resolve_iterations.
    rewrite ResolveFacts.resolve_path_spec.
    rewrite (ResolveInvariant.resolve_loop_self vars x Hx Hv 20).
    repeat split.
Qed.

Lemma resolve_path_bounded_witness :
  resolve_iterations "${x}" {[ "x" := "${x}" ]} = 20
  /\ fst (resolve_loop {[ "x" := "${x}" ]} 20 "${x}") = Some "${x}"
  /\ resolve_path "${x}" {[ "x" := "${x}" ]} = None.
Proof.
  apply (proj2 (proj2 (resolve_path_bounded "" {[ "x" := "${x}" ]})) "x").
  - split; [discriminate | reflexivity].
  - reflexivity.
Defined.

(** * The extractor: claims C6 and C10 *)

Module ExtractFacts.
Import Str StrFacts.

(** The candidate is cut at its first doubled separator, and the later
    steps only remove characters from its two ends. *)
Lemma tidy_no_double_slash (g : string) : contains "//" (tidy g) = false.
Proof.
  unfold tidy.
  assert (contains "//"
            (strip (rstrip_comma (strip (before_sep "//" g)))) = false) as H.
  { apply contains_strip. unfold rstrip_comma. apply contains_rstrip.
    apply contains_strip. now apply contains_before_sep. }
  destruct (endswith _ _); [now apply contains_drop_last | assumption].
Qed.

Lemma endswith_strip_gni (raw : string) :
  endswith raw ".gni" = true -> endswith (strip raw) ".gni" = true.
Proof.
  intros H. unfold strip.
  apply (endswith_lstrip isspace) in H; [|reflexivity].
  pose proof H as H'. apply endswith_iff in H' as [a Ha].
  assert (lstrip_with isspace raw = (a +:+ ".gn") +:+ "i") as Hi.
  { rewrite Ha, app_assoc. reflexivity. }
  rewrite Hi at 1. rewrite rstrip_with_keeps by reflexivity. now rewrite <- Hi.
Qed.

Lemma accepts_excludes (raw : string) :
  accepts raw = true -> contains ":" raw = false /\ endswith raw ".gni" = false.
Proof.
  unfold accepts. destruct (_ && _); [|discriminate].
  destruct (contains ":" raw); [discriminate|].
  destruct (endswith (strip raw) ".gni") eqn:E; [discriminate|].
  intros _. split; [reflexivity|].
  destruct (endswith raw ".gni") eqn:E'; [|reflexivity].
  apply endswith_strip_gni in E'. congruence.
Qed.

Lemma accepts_rejects (raw : string) :
  contains ":" raw = true \/ endswith raw ".gni" = true -> accepts raw = false.
Proof.
  intros H. destruct (accepts raw) eqn:E; [|reflexivity].
  apply accepts_excludes in E as [E1 E2]. destruct H; congruence.
Qed.

Lemma collect_spec (matches : list string) (context : string) results :
  collect matches context results =
  results ++ List.map (fun raw => (raw, context))
               (List.filter accepts (List.map tidy matches)).
Proof.
  revert results. induction matches as [|g ms IH]; intros results; simpl.
  - now rewrite List.app_nil_r.
  - rewrite IH. destruct (accepts (tidy g)); simpl; [|reflexivity].
    now rewrite <- List.app_assoc.
Qed.

Lemma latest_marker_snoc (done : list string) (line : string) :
  default (default "source" (last (omap line_marker done))) (line_marker line)
  = default "source" (last (omap line_marker (done ++ [line]))).
Proof.
  rewrite omap_app. simpl. destruct (line_marker line) as [c|]; simpl.
  - now rewrite last_snoc.
  - now rewrite List.app_nil_r.
Qed.

Lemma extract_lines_spec (rest done : list string) results :
  extract_lines rest (default "source" (last (omap line_marker done))) results
  = results ++
    concat (imap (fun i line =>
                    emitted (context_at (done ++ rest) (length done + i)) line)
              rest).
Proof.
  revert done results. induction rest as [|line rest IH]; intros done results.
  - simpl. now rewrite List.app_nil_r.
  - simpl extract_lines. rewrite latest_marker_snoc, IH, collect_spec.
    rewrite imap_cons. simpl concat. rewrite <- List.app_assoc.
    f_equal. f_equal.
    + unfold emitted, context_at. do 3 f_equal.
      rewrite Nat.add_0_r.
      change (done ++ line :: rest) with (done ++ [line] ++ rest).
      rewrite List.app_assoc, take_app_length'; [reflexivity|].
      rewrite length_app. simpl. lia.
    + f_equal. apply imap_ext. intros i x _. simpl.
      rewrite <- List.app_assoc, length_app. simpl.
      now replace (length done + 1 + i) with (length done + S i) by lia.
Qed.

Lemma extract_elements (content : string) :
  Forall (fun e => exists g, fst e = tidy g /\ accepts (tidy g) = true)
    (extract_path_expressions content).
Proof.
  unfold extract_path_expressions.
  pose proof (extract_lines_spec (split_lines content) [] []) as E.
  change (default "source" (last (omap line_marker []))) with "source" in E.
  rewrite E. clear E. simpl.
  apply Forall_forall. intros e He.
  apply list_elem_of_In, in_concat in He as [l [Hl He]].
  apply list_elem_of_In, elem_of_lookup_imap in Hl as [i [line [-> _]]].
  unfold emitted in He. apply in_map_iff in He as [raw [<- Hraw]].
  apply filter_In in Hraw as [Hraw Hacc].
  apply in_map_iff in Hraw as [g [<- _]]. now exists g.
Qed.

Lemma omap_no_marker (ls : list string) :
  Forall (fun l => line_marker l = None) ls -> omap line_marker ls = [].
Proof.
  induction 1 as [|l ls Hl _ IH]; simpl; [reflexivity|]. now rewrite Hl.
Qed.

(** Before any marker the context is the initial one. *)
Lemma context_at_source (lines : list string) (i : nat) :
  (forall k l, k <= i -> lines !! k = Some l -> line_marker l = None) ->
  context_at lines i = "source".
Proof.
  intros Hnone. unfold context_at. rewrite omap_no_marker; [reflexivity|].
  apply Forall_lookup. intros k l Hk.
  apply lookup_take_Some in Hk as [Hl Hlt]. apply (Hnone k l); [lia | assumption].
Qed.

(** A marker holds on its own line and on every later line up to the next
    marker. *)
Lemma context_at_marker (lines : list string) (j i : nat) (l c : string) :
  j <= i -> lines !! j = Some l -> line_marker l = Some c ->
  (forall k l', j < k <= i -> lines !! k = Some l' -> line_marker l' = None) ->
  context_at lines i = c.
Proof.
  intros Hji Hl Hc Hnone. unfold context_at.
  assert (take (S i) lines !! j = Some l) as Hj.
  { apply lookup_take_Some. split; [assumption | lia]. }
  rewrite <- (take_drop_middle _ _ _ Hj).
  change (l :: list.drop (S j) (take (S i) lines))
    with ([l] ++ list.drop (S j) (take (S i) lines)).
  rewrite !omap_app, (omap_no_marker (list.drop (S j) (take (S i) lines))).
  - rewrite List.app_nil_r. simpl. rewrite Hc. now rewrite last_snoc.
  - apply Forall_lookup. intros m l' Hm. rewrite lookup_drop in Hm.
    apply lookup_take_Some in Hm as [Hl' Hlt].
    apply (Hnone (S j + m) l'); [lia | assumption].
Qed.

Import ResolveFacts.


Lemma contains_trans (a b s : string) :
  contains a b = true -> contains b s = true -> contains a s = true.
Proof.
  rewrite !contains_iff. intros [x [y ->]] [u [v ->]].
  exists (u +:+ x), (y +:+ v).
  now rewrite <- !app_assoc.
Qed.

(** The markers, without the tests that another test of the line implies. *)
Lemma line_marker_spec (line : string) :
  line_marker line =
  if contains "include_dirs" line then Some "include_dir"
  else if contains "libs +=" line || contains "libs =" line then Some "lib"
  else if contains "sources +=" line || contains "sources =" line then Some "source"
  else None.
Proof.
  unfold line_marker.
  assert (contains "_include_dirs" line = true -> contains "include_dirs" line = true) as H1.
  { apply contains_trans. reflexivity. }
  assert (contains "sources +=" line = true -> contains "sources" line = true) as H2.
  { apply contains_trans. reflexivity. }
  assert (contains "sources =" line = true -> contains "sources" line = true) as H3.
  { apply contains_trans. reflexivity. }
  destruct (contains "include_dirs" line), (contains "_include_dirs" line);
    cbn [orb]; try reflexivity; [now discriminate H1|].
  destruct (contains "libs +=" line || contains "libs =" line); [reflexivity|].
  destruct (contains "sources" line), (contains "sources +=" line),
    (contains "sources =" line); cbn [orb andb]; try reflexivity;
    try (now discriminate H2); now discriminate H3.
Qed.

Lemma finditer_quoted_step (c : ascii) (line : string) (skip : nat) :
  finditer_quoted skip (String c line) =
  match skip with
  | S k => finditer_quoted k line
  | 0 =>
      match quoted_at (String c line) with
      | Some g => g :: finditer_quoted (String.length g + 1) line
      | None => finditer_quoted 0 line
      end
  end.
Proof. reflexivity. Qed.

Lemma no_quote_cons (c : ascii) (s : string) :
  contains (String dquote "") (String c s) = false ->
  Ascii.eqb c dquote = false /\ contains (String dquote "") s = false.
Proof.
  rewrite contains_cons. intros [H1 H2]%orb_false_iff. split; [|exact H2].
  destruct (Ascii.eqb_spec c dquote) as [->|]; [|reflexivity].
  now destruct s.
Qed.

(** Text without a quote holds no match. *)
Lemma finditer_quoted_pre (pre rest : string) :
  contains (String dquote "") pre = false ->
  finditer_quoted 0 (pre +:+ rest) = finditer_quoted 0 rest.
Proof.
  induction pre as [|c pre IH]; [reflexivity|].
  intros [Hc Hpre]%no_quote_cons.
  change (String c pre +:+ rest) with (String c (pre +:+ rest)).
  rewrite finditer_quoted_step.
  unfold quoted_at. rewrite Hc. cbn [andb]. now apply IH.
Qed.

Lemma finditer_quoted_plain (line : string) :
  contains (String dquote "") line = false -> finditer_quoted 0 line = [].
Proof.
  induction line as [|c l IH]; [reflexivity|].
  intros [Hc Hl]%no_quote_cons. rewrite finditer_quoted_step.
  unfold quoted_at. rewrite Hc. cbn [andb]. now apply IH.
Qed.

(** The characters of a match are passed over. *)
Lemma finditer_quoted_skip (x rest : string) :
  finditer_quoted (String.length x) (x +:+ rest) = finditer_quoted 0 rest.
Proof.
  induction x as [|c x IH]; [now destruct rest|].
  change (String c x +:+ rest) with (String c (x +:+ rest)).
  change (String.length (String c x)) with (S (String.length x)).
  now rewrite finditer_quoted_step.
Qed.

Lemma quoted_shape (k t post : string) :
  quoted (group0 k +:+ t) +:+ post
  = String dquote ("${" +:+ (k +:+ String "}"%char (t +:+ String dquote post))).
Proof. unfold quoted, group0. simpl. rewrite !app_assoc. reflexivity. Qed.

Lemma quoted_at_candidate (k t post : string) :
  is_name k -> contains (String dquote "") t = false ->
  quoted_at (quoted (group0 k +:+ t) +:+ post) = Some (group0 k +:+ t).
Proof.
  intros [Hk Hn] Ht. rewrite quoted_shape.
  unfold quoted_at. rewrite Ascii.eqb_refl.
  change (startswith ("${" +:+ ?a) "${") with true. cbn [andb].
  change (drop 2 ("${" +:+ ?a)) with a.
  rewrite (run_until_name "}" k _ Hn).
  destruct k as [|a k]; [contradiction|].
  rewrite (run_until_name dquote t post Ht).
  reflexivity.
Qed.

Lemma finditer_quoted_match (g post : string) :
  quoted_at (quoted g +:+ post) = Some g ->
  finditer_quoted 0 (quoted g +:+ post) = g :: finditer_quoted 0 post.
Proof.
  assert (quoted g +:+ post = String dquote ((g +:+ String dquote "") +:+ post))
    as -> by reflexivity.
  intros Hq. rewrite finditer_quoted_step, Hq. f_equal.
  rewrite <- (finditer_quoted_skip (g +:+ String dquote "") post).
  f_equal. clear Hq. induction g as [|c g IH]; [reflexivity|]. simpl. now rewrite IH.
Qed.

(** A quoted string that opens with a placeholder is a match, and the
    search goes on after its closing quote. *)
Lemma finditer_quoted_candidate (pre k t post : string) :
  contains (String dquote "") pre = false ->
  is_name k -> contains (String dquote "") t = false ->
  finditer_quoted 0 (pre +:+ quoted (group0 k +:+ t) +:+ post)
  = (group0 k +:+ t) :: finditer_quoted 0 post.
Proof.
  intros Hpre Hk Ht. rewrite finditer_quoted_pre by assumption.
  apply finditer_quoted_match. now apply quoted_at_candidate.
Qed.

End ExtractFacts.

(** C6.  The extractor emits, line after line and match after match, the
    tidied candidates it accepts, each with the context in force on its
    line; nothing is removed from this sequence, so repeated pairs stay.  No
    emitted expression contains a colon or ends in [.gni], and every
    candidate that does is rejected.  The context in force on a line is
    ["source"] when no line up to it carries a marker, and otherwise the one
    set by the latest marker on a line at or before it.  A line carries the
    marker of include directories when it contains [include_dirs], else the
    one of libraries when it contains [libs +=] or [libs =], else the one
    of sources when it contains [sources +=] or [sources =], and none
    otherwise.  The matches on a line are its quoted strings that open with
    a placeholder, from the left: text without a quote holds none, and
    after such text a quoted placeholder followed by text without a quote
    is the next match, the search going on after its closing quote. *)
Theorem extract_path_expressions_spec (content : string) :
  extract_path_expressions content
  = concat (imap (fun i line =>
                    emitted (context_at (Str.split_lines content) i) line)
              (Str.split_lines content))
  /\ Forall (fun e => Str.contains ":" (fst e) = false
                      /\ Str.endswith (fst e) ".gni" = false)
       (extract_path_expressions content)
  /\ (forall raw,
        Str.contains ":" raw = true \/ Str.endswith raw ".gni" = true ->
        accepts raw = false)
  /\ (forall i,
        (forall k l, k <= i -> Str.split_lines content !! k = Some l ->
                     line_marker l = None) ->
        context_at (Str.split_lines content) i = "source")
  /\ (forall j i l c,
        j <= i -> Str.split_lines content !! j = Some l ->
        line_marker l = Some c ->
        (forall k l', j < k <= i -> Str.split_lines content !! k = Some l' ->
                      line_marker l' = None) ->
        context_at (Str.split_lines content) i = c)
  /\ (forall line,
        line_marker line =
        if Str.contains "include_dirs" line then Some "include_dir"
        else if Str.contains "libs +=" line || Str.contains "libs =" line
        then Some "lib"
        else if Str.contains "sources +=" line || Str.contains "sources =" line
        then Some "source"
        else None)
  /\ (forall pre k t post,
        Str.contains (String dquote "") pre = false ->
        is_name k -> Str.contains (String dquote "") t = false ->
        finditer_quoted 0 (pre +:+ quoted (group0 k +:+ t) +:+ post)
        = (group0 k +:+ t) :: finditer_quoted 0 post)
  /\ (forall line,
        Str.contains (String dquote "") line = false ->
        finditer_quoted 0 line = []).
Proof.
  split; [|split; [|split; [|split; [|split; [|split; [|split]]]]]];
    [ | | | apply ExtractFacts.context_at_source
      | apply ExtractFacts.context_at_marker
      | apply ExtractFacts.line_marker_spec
      | apply ExtractFacts.finditer_quoted_candidate
      | apply ExtractFacts.finditer_quoted_plain ].
  - unfold extract_path_expressions.
    pose proof (ExtractFacts.extract_lines_spec (Str.split_lines content) [] []) as E.
    change (default "source" (last (omap line_marker []))) with "source" in E.
    rewrite E. reflexivity.
  - eapply Forall_impl; [apply ExtractFacts.extract_elements|].
    intros e [g [-> Hacc]]. now apply ExtractFacts.accepts_excludes.
  - apply ExtractFacts.accepts_rejects.
Qed.

Lemma extract_path_expressions_spec_witness :
  extract_path_expressions sample_description
  = [ ("${chip_root}/foo", "include_dir"); ("${chip_root}/foo", "include_dir");
      ("${a}/x.a", "lib") ]
  /\ context_at (Str.split_lines sample_description) 0 = "include_dir"
  /\ context_at (Str.split_lines sample_description) 1 = "include_dir"
  /\ context_at (Str.split_lines sample_description) 2 = "lib"
  /\ context_at (Str.split_lines (quoted "${a}/x.a")) 0 = "source"
  /\ finditer_quoted 0
       ("  " +:+ quoted "${chip_root}/foo" +:+ ", "
        +:+ quoted "${chip_root}/foo" +:+ ",")
     = [ "${chip_root}/foo"; "${chip_root}/foo" ]
  /\ line_marker "libs += [ " = Some "lib"
  /\ accepts "${a}:tgt" = false.
Proof.
  destruct (extract_path_expressions_spec sample_description)
    as (Heq & _ & Hrej & _ & Hctx & Hmark & Hcand & Hplain).
  destruct (extract_path_expressions_spec (quoted "${a}/x.a"))
    as (_ & _ & _ & Hsrc & _).
  refine (conj _ (conj _ (conj _ (conj _ (conj _ (conj _ (conj _ _))))))).
  - etransitivity; [exact Heq | vm_compute; reflexivity].
  - apply (Hctx 0 0 "include_dirs = [" "include_dir");
      [lia | reflexivity | reflexivity | intros k l' Hk; lia].
  - apply (Hctx 0 1 "include_dirs = [" "include_dir");
      [lia | reflexivity | reflexivity |].
    intros k l' Hk Hl. assert (k = 1) as -> by lia.
    vm_compute in Hl. injection Hl as <-. reflexivity.
  - eapply (Hctx 2 2 _ "lib");
      [lia | vm_compute; reflexivity | reflexivity | intros k l' Hk; lia].
  - apply Hsrc. intros k l Hk Hl. assert (k = 0) as -> by lia.
    vm_compute in Hl. injection Hl as <-. reflexivity.
  - etransitivity;
      [exact (Hcand "  " "chip_root" "/foo"
                (", " +:+ quoted "${chip_root}/foo" +:+ ",")
                eq_refl (conj (fun E => eq_ind "chip_root"
                   (fun s => match s with EmptyString => False | _ => True end) I "" E)
                   eq_refl) eq_refl)|].
    apply (f_equal (cons "${chip_root}/foo")).
    etransitivity;
      [exact (Hcand ", " "chip_root" "/foo" ","
                eq_refl (conj (fun E => eq_ind "chip_root"
                   (fun s => match s with EmptyString => False | _ => True end) I "" E)
                   eq_refl) eq_refl)|].
    apply (f_equal (cons "${chip_root}/foo")). apply Hplain. reflexivity.
  - rewrite Hmark. reflexivity.
  - apply Hrej. left. reflexivity.
Defined.

(** A build description in four lines: the context set on the first line
    holds on the second, the same library is listed twice and emitted twice,
    a target reference and a nested build file are left out. *)
Example extract_sticky_and_repeated :
  extract_path_expressions
    ("include_dirs = [ " +:+ String dquote "${chip_root}/foo" +:+ String dquote ",
  " +:+ String dquote "${chip_root}/bar" +:+ String dquote " ]
libs += [ " +:+ String dquote "${a}/x.a" +:+ String dquote ", "
      +:+ String dquote "${a}:tgt" +:+ String dquote ", "
      +:+ String dquote "${a}/f.gni" +:+ String dquote ", "
      +:+ String dquote "${a}/x.a" +:+ String dquote " ]
sources = [ " +:+ String dquote "${c}/y.c" +:+ String dquote " ]")
  = [ ("${chip_root}/foo", "include_dir"); ("${chip_root}/bar", "include_dir");
      ("${a}/x.a", "lib"); ("${a}/x.a", "lib"); ("${c}/y.c", "source") ].
Proof. vm_compute. reflexivity. Qed.

(** The matches of the pattern on a line: a quote inside the braces belongs
    to the match, and the text after an unclosed candidate is passed over. *)
Example finditer_quoted_example :
  finditer_quoted 0
    ("x " +:+ String dquote "${a" +:+ String dquote "b}c" +:+ String dquote " "
     +:+ String dquote "${d}/e" +:+ String dquote " "
     +:+ String dquote "${f} " +:+ String dquote "${g}" +:+ String dquote "")
  = [ "${a" +:+ String dquote "b}c"; "${d}/e"; "${f} " ].
Proof. vm_compute. reflexivity. Qed.

(** C10.  No emitted expression contains a doubled separator: tidying cuts
    every candidate at its first doubled separator, so the quoted
    expression [${root}//foo] is emitted as [${root}]. *)
Theorem extract_no_double_slash (content : string) :
  Forall (fun e => Str.contains "//" (fst e) = false)
    (extract_path_expressions content)
  /\ (forall g, Str.contains "//" (tidy g) = false)
  /\ tidy "${root}//foo" = "${root}"
  /\ extract_path_expressions
       (String dquote "${root}//foo" +:+ String dquote "")
     = [ ("${root}", "source") ].
Proof.
  split; [|split; [|split]].
  - eapply Forall_impl; [apply ExtractFacts.extract_elements|].
    intros e [g [-> _]]. apply ExtractFacts.tidy_no_double_slash.
  - apply ExtractFacts.tidy_no_double_slash.
  - reflexivity.
  - vm_compute. reflexivity.
Qed.

(** * The validator: claim C5 *)

(** C5.  A library is expected to be a file and an include directory a
    directory; a source is expected to be a file exactly when its path ends
    in the library extension or in one of the source extensions.  A path
    that exists with the other kind fails with a message of its own, which
    is never the message of a missing path; a library path that is a
    directory fails with [expected file, found directory]. *)
Theorem validate_path_kinds `{Host} (resolved : string) (base_path : path) :
  is_file_path resolved "lib" = true
  /\ is_file_path resolved "include_dir" = false
  /\ (is_file_path resolved "source" = true <->
      exists ext, In ext (LIB_EXT :: SOURCE_EXTENSIONS)
                  /\ Str.endswith resolved ext = true)
  /\ (forall context,
        path_exists (located resolved base_path) = true ->
        (is_file_path resolved context = true ->
         is_dir (located resolved base_path) = true ->
         validate_path resolved context base_path
         = (false, "expected file, found directory: "
                   +:+ path_str (located resolved base_path)))
        /\ (is_file_path resolved context = false ->
            is_file (located resolved base_path) = true ->
            validate_path resolved context base_path
            = (false, "expected directory, found file: "
                      +:+ path_str (located resolved base_path))))
  /\ (forall context,
        path_exists (located resolved base_path) = false ->
        validate_path resolved context base_path
        = (false, "missing: " +:+ path_str (located resolved base_path)))
  /\ (forall a b,
        "expected file, found directory: " +:+ a <> "missing: " +:+ b
        /\ "expected directory, found file: " +:+ a <> "missing: " +:+ b)
  /\ (path_exists (located resolved base_path) = true ->
      is_dir (located resolved base_path) = true ->
      validate_path resolved "lib" base_path
      = (false, "expected file, found directory: "
                +:+ path_str (located resolved base_path))).
Proof.
  assert (forall context,
            path_exists (located resolved base_path) = true ->
            is_file_path resolved context = true ->
            is_dir (located resolved base_path) = true ->
            validate_path resolved context base_path
            = (false, "expected file, found directory: "
                      +:+ path_str (located resolved base_path))) as Hfile.
  { intros context He Hf Hd. unfold validate_path. now rewrite He, Hf, Hd. }
  assert (is_file_path resolved "source"
          = (Str.endswith resolved LIB_EXT
             || existsb (fun ext => Str.endswith resolved ext) SOURCE_EXTENSIONS))
    as Hsource by reflexivity.
  split; [reflexivity|]. split; [reflexivity|]. split.
  { rewrite Hsource, orb_true_iff, existsb_exists. split.
    - intros [Ha | [ext [Hin Hext]]].
      + exists LIB_EXT. split; [now left | assumption].
      + exists ext. split; [now right | assumption].
    - intros [ext [[<- | Hin] Hext]]; [now left | right; now exists ext]. }
  split.
  { intros context He. split.
    - intros Hf Hd. now apply Hfile.
    - intros Hf Hfl. unfold validate_path. now rewrite He, Hf, Hfl. }
  split.
  { intros context He. unfold validate_path. now rewrite He. }
  split.
  { intros a b. split; simpl; discriminate. }
  intros He Hd. now apply Hfile.
Qed.

Lemma validate_path_kinds_witness :
  @validate_path (sample_host ["/r/lib"] [] []) "/r/lib" "lib" "/r"
  = (false, "expected file, found directory: /r/lib").
Proof.
  apply (validate_path_kinds (H := sample_host ["/r/lib"] [] []) "/r/lib" "/r");
    reflexivity.
Defined.

(** * The driver: claims C1, C4 and C9 *)

#[local] Set Warnings "-clear-no-such-hyp".

Section DriverFacts.
Context `{Host} {Combo : Type}.
Variables (base_vars : gmap string string)
          (board_combos : list Combo)
          (board_var_substrings : list string)
          (get_board_vars : Combo -> gmap string string)
          (root : path)
          (slc_flag cond_flag : bool).

Local Abbreviation search := (board_search base_vars get_board_vars root).
Local Abbreviation visit_with := (visit base_vars board_combos board_var_substrings
                                get_board_vars root slc_flag).
Local Abbreviation visit' := (visit_with cond_flag).
Local Abbreviation try := (attempt base_vars get_board_vars root).
Local Abbreviation try_calls := (attempt_calls base_vars get_board_vars).

(** The tally after [n] checks, [u] failed resolutions and the calls [cs]. *)
Local Abbreviation advanced t n u cs :=
  (Tally (missing t) (checked t + n) (unresolved t + u)
         (conditional_skipped t) (seen t) (calls t ++ cs)).

Lemma advanced_zero (t : tally) : advanced t 0 0 [] = t.
Proof.
  destruct t. simpl. rewrite !Nat.add_0_r, List.app_nil_r. reflexivity.
Qed.

(** Combinations that resolve and do not validate are passed one by one. *)
Lemma board_search_failed (raw ctx : string) (pre rest : list Combo) :
  Forall (fun c => try raw ctx c = Some false) pre ->
  forall t rc,
  exists rc',
    (pre = [] -> rc' = rc) /\ (pre <> [] -> rc' <> None)
    /\ search raw ctx (pre ++ rest) t rc
       = search raw ctx rest
           (advanced t (length pre) 0 (flat_map (try_calls raw ctx) pre)) rc'.
Proof.
  induction 1 as [|c pre Hc Hpre IH]; intros t rc.
  - exists rc. rewrite advanced_zero. repeat split; congruence.
  - unfold attempt in Hc.
    destruct (resolve_path raw (vars_with_board base_vars get_board_vars c))
      as [r|] eqn:Hr; [|discriminate].
    injection Hc as Hok.
    destruct (IH (bump_checked
                    (record_call (Validate r ctx)
                       (record_call
                          (Resolve raw (vars_with_board base_vars get_board_vars c))
                          t)))
                 (Some r)) as [rc' [H1 [H2 H3]]].
    exists rc'. split; [discriminate|]. split.
    + intros _. destruct pre; [rewrite H1 by reflexivity; discriminate | now apply H2].
    + simpl. rewrite Hr.
      destruct (validate_path r ctx root) as [ok msg]. simpl in Hok. subst ok.
      rewrite H3. f_equal.
      destruct t. unfold bump_checked, record_call. simpl. f_equal.
      * lia.
      * rewrite <- !List.app_assoc. reflexivity.
Qed.

Lemma board_search_seen (raw ctx : string) (combos : list Combo) t rc :
  seen (search raw ctx combos t rc).1.1 = seen t.
Proof.
  revert t rc. induction combos as [|c combos IH]; intros t rc; simpl.
  - reflexivity.
  - destruct (resolve_path raw _) as [r|]; [|reflexivity].
    destruct (validate_path r ctx root) as [[|] msg]; [reflexivity|].
    now rewrite IH.
Qed.

Lemma visit_seen_again (t : tally) (e : string * string) :
  e ∈ seen t -> visit' t e = t.
Proof.
  intros He. destruct e as [raw ctx]. unfold visit.
  now rewrite bool_decide_eq_true_2.
Qed.

Lemma visit_seen (t : tally) (e : string * string) :
  seen (visit' t e) = {[ e ]} ∪ seen t.
Proof.
  destruct (decide (e ∈ seen t)) as [He|He].
  - rewrite visit_seen_again by assumption. set_solver.
  - destruct e as [raw ctx]. unfold visit.
    rewrite bool_decide_eq_false_2 by assumption.
    destruct (slc_gen_skipped slc_flag raw); [reflexivity|].
    destruct (has_board_var board_var_substrings raw).
    + destruct cond_flag; [reflexivity|].
      pose proof (board_search_seen raw ctx board_combos
                    (add_seen (raw, ctx) t) None) as Hs.
      destruct (search raw ctx board_combos _ None) as [[t' ok] rc].
      simpl in Hs. destruct (negb ok && _); simpl; exact Hs.
    + destruct (resolve_path raw base_vars) as [r|]; [|reflexivity].
      destruct (validate_path r ctx root) as [[|] msg]; reflexivity.
Qed.

Lemma fold_visit_seen (l : list (string * string)) (t : tally) :
  seen (fold_left visit' l t) = list_to_set l ∪ seen t.
Proof.
  revert t. induction l as [|e l IH]; intros t; simpl.
  - set_solver.
  - rewrite IH, visit_seen. set_solver.
Qed.

Lemma fold_visit_first_occurrences (l : list (string * string)) (t : tally) :
  fold_left visit' l t = fold_left visit' (first_occurrences (seen t) l) t.
Proof.
  revert t. induction l as [|e l IH]; intros t; simpl; [reflexivity|].
  destruct (bool_decide_reflect (e ∈ seen t)) as [He|He].
  - rewrite visit_seen_again by assumption. apply IH.
  - simpl. rewrite IH, visit_seen. reflexivity.
Qed.

Lemma first_occurrences_fresh (met : gset (string * string)) l :
  NoDup (first_occurrences met l)
  /\ forall e, e ∈ first_occurrences met l -> e ∉ met.
Proof.
  revert met. induction l as [|e l IH]; intros met; simpl.
  - split; [constructor | intros e He; inversion He].
  - destruct (bool_decide_reflect (e ∈ met)) as [He|He]; [apply IH|].
    destruct (IH ({[ e ]} ∪ met)) as [Hnd Hfresh]. split.
    + constructor; [|assumption]. intros Hin. apply Hfresh in Hin. set_solver.
    + intros e' He'. apply elem_of_cons in He' as [->|He']; [assumption|].
      apply Hfresh in He'. set_solver.
Qed.
End DriverFacts.

Section DriverClaims.
Context `{Host} {Combo : Type}.
Variables (base_vars : gmap string string)
          (board_combos : list Combo)
          (board_var_substrings : list string)
          (get_board_vars : Combo -> gmap string string)
          (root : path)
          (slc_flag : bool).

Local Abbreviation visit_with :=
  (visit base_vars board_combos board_var_substrings get_board_vars root slc_flag).
Local Abbreviation try := (attempt base_vars get_board_vars root).
Local Abbreviation try_calls := (attempt_calls base_vars get_board_vars).

(** C1, as amended.  An expression that names a board variable, met for the
    first time and not set aside by the rule of line 234 on generated paths,
    with the skip-conditional flag unset: the combinations are tried in the order of the list, each
    against the board bindings merged over the base bindings.  When the
    first combination that does not fail validation validates, the search
    stops there, one check is counted for each combination tried and
    nothing is reported.  When it does not resolve, the search stops there
    too, one more unresolved expression is counted and nothing is
    reported.  When every combination of a non-empty list resolves and
    fails validation, one report [(missing for all board combinations)]
    is added.  The calls made are those of the combinations tried. *)
Theorem board_dependent_search (t : tally) (raw ctx : string) :
  has_board_var board_var_substrings raw = true ->
  slc_gen_skipped slc_flag raw = false ->
  (raw, ctx) ∉ seen t ->
  (forall c k,
      vars_with_board base_vars get_board_vars c !! k
      = match get_board_vars c !! k with
        | Some v => Some v
        | None => base_vars !! k
        end)
  /\ (forall pre c post,
      board_combos = pre ++ c :: post ->
      Forall (fun c' => try raw ctx c' = Some false) pre ->
      try raw ctx c = Some true ->
      visit_with false t (raw, ctx)
      = Tally (missing t) (checked t + (length pre + 1)) (unresolved t)
          (conditional_skipped t) ({[ (raw, ctx) ]} ∪ seen t)
          (calls t ++ flat_map (try_calls raw ctx) (pre ++ [c])))
  /\ (forall pre c post,
        board_combos = pre ++ c :: post ->
        Forall (fun c' => try raw ctx c' = Some false) pre ->
        try raw ctx c = None ->
        visit_with false t (raw, ctx)
        = Tally (missing t) (checked t + length pre) (unresolved t + 1)
            (conditional_skipped t) ({[ (raw, ctx) ]} ∪ seen t)
            (calls t ++ flat_map (try_calls raw ctx) (pre ++ [c])))
  /\ (board_combos <> [] ->
      Forall (fun c' => try raw ctx c' = Some false) board_combos ->
      visit_with false t (raw, ctx)
      = Tally (missing t ++ [(raw, ctx, MISSING_FOR_ALL)])
          (checked t + length board_combos) (unresolved t)
          (conditional_skipped t) ({[ (raw, ctx) ]} ∪ seen t)
          (calls t ++ flat_map (try_calls raw ctx) board_combos)).
Proof.
  intros Hboard Hslc Hnew.
  assert (forall b, visit_with b t (raw, ctx)
                    = if b then bump_skipped (add_seen (raw, ctx) t)
                      else
                        let '(t', any_ok, resolved_cond) :=
                          board_search base_vars get_board_vars root raw ctx
                            board_combos (add_seen (raw, ctx) t) None in
                        if negb any_ok && bool_decide (resolved_cond <> None)
                        then add_missing (raw, ctx, MISSING_FOR_ALL) t'
                        else t') as Hvisit.
  { intros b. unfold visit.
    rewrite bool_decide_eq_false_2, Hslc, Hboard by assumption. reflexivity. }
  rewrite (Hvisit false). clear Hvisit. split; [|split; [|split]].
  - intros c k. unfold vars_with_board. rewrite lookup_union.
    destruct (get_board_vars c !! k), (base_vars !! k); reflexivity.
  - intros pre c post -> Hpre Hc.
    destruct (board_search_failed base_vars get_board_vars root raw ctx pre
                (c :: post) Hpre (add_seen (raw, ctx) t) None)
      as [rc' [_ [_ ->]]].
    unfold attempt in Hc. simpl board_search.
    rewrite flat_map_app. simpl flat_map. unfold attempt_calls at 2.
    destruct (resolve_path raw _) as [r|]; [|discriminate].
    destruct (validate_path r ctx root) as [ok msg].
    injection Hc as ->. simpl negb. cbv iota beta.
    destruct t. unfold bump_checked, record_call, add_seen. simpl.
    f_equal; try lia. rewrite <- !List.app_assoc. reflexivity.
  - intros pre c post -> Hpre Hc.
    destruct (board_search_failed base_vars get_board_vars root raw ctx pre
                (c :: post) Hpre (add_seen (raw, ctx) t) None)
      as [rc' [_ [_ ->]]].
    unfold attempt in Hc. simpl board_search.
    rewrite flat_map_app. simpl flat_map. unfold attempt_calls at 2.
    destruct (resolve_path raw _) as [r|]; [discriminate|].
    cbv beta iota zeta.
    rewrite bool_decide_eq_false_2 by (intros Hn; now apply Hn).
    destruct t. unfold bump_unresolved, record_call, add_seen. simpl.
    f_equal; try lia. rewrite <- !List.app_assoc. reflexivity.
  - intros Hne Hall.
    destruct (board_search_failed base_vars get_board_vars root raw ctx
                board_combos [] Hall (add_seen (raw, ctx) t) None)
      as [rc' [_ [Hrc Heq]]].
    rewrite List.app_nil_r in Heq. rewrite Heq. simpl board_search.
    cbv beta iota zeta.
    rewrite bool_decide_eq_true_2 by now apply Hrc.
    destruct t. unfold add_missing, add_seen. simpl.
    f_equal; lia.
Qed.

(** C9.  With the skip-conditional flag set, an expression that names a
    board variable and is met for the first time adds one to the skipped
    counter and leaves the missing list, the two other counters and the
    calls as they are: it is neither resolved nor validated.  Met again,
    it changes nothing. *)
Theorem skip_conditional_skips (t : tally) (raw ctx : string) :
  has_board_var board_var_substrings raw = true ->
  ((raw, ctx) ∉ seen t ->
   visit_with true t (raw, ctx)
   = Tally (missing t) (checked t) (unresolved t) (conditional_skipped t + 1)
       ({[ (raw, ctx) ]} ∪ seen t) (calls t))
  /\ ((raw, ctx) ∈ seen t -> visit_with true t (raw, ctx) = t).
Proof.
  intros Hboard. split; intros Hseen.
  - unfold visit. rewrite bool_decide_eq_false_2, Hboard by assumption.
    destruct (slc_gen_skipped slc_flag raw); reflexivity.
  - now apply visit_seen_again.
Qed.

(** C4.  A pair met again changes nothing: the state of the loop after a
    second or later occurrence is the state before it, calls included; and
    the run over all the extracted pairs is the run over the first
    occurrence of each, a list without repetition. *)
Theorem repeated_pairs_ignored (cond_flag : bool) (content : string) :
  (forall pre e post,
      extract_path_expressions content = pre ++ e :: post ->
      e ∈ pre ->
      fold_left (visit_with cond_flag) (pre ++ [e]) empty_tally
      = fold_left (visit_with cond_flag) pre empty_tally)
  /\ run_tally base_vars board_combos board_var_substrings get_board_vars
       root slc_flag cond_flag content
     = fold_left (visit_with cond_flag)
         (first_occurrences ∅ (extract_path_expressions content)) empty_tally
  /\ NoDup (first_occurrences ∅ (extract_path_expressions content)).
Proof.
  split; [|split].
  - intros pre e post _ He. rewrite fold_left_app. simpl.
    apply visit_seen_again. rewrite fold_visit_seen.
    apply elem_of_union_l. now apply elem_of_list_to_set.
  - unfold run_tally, visit_all. apply fold_visit_first_occurrences.
  - apply first_occurrences_fresh.
Qed.
End DriverClaims.

(** Scenario 3: three boards, the path exists for the second only.  Two
    checks are counted, the third board is never tried and nothing is
    reported. *)
Lemma board_dependent_search_witness :
  @visit (sample_host ["/r/b2"] [] []) string
    {[ "chip_root" := "/r" ]} ["b1"; "b2"; "b3"] ["${silabs_board}"]
    get_siwx917_board_vars "/r" false false empty_tally
    ("${chip_root}/${silabs_board}", "include_dir")
  = Tally [] 2 0 0 ({[ ("${chip_root}/${silabs_board}", "include_dir") ]} ∪ ∅)
      [ Resolve "${chip_root}/${silabs_board}"
          ({[ "silabs_board" := "b1" ]} ∪ {[ "chip_root" := "/r" ]});
        Validate "/r/b1" "include_dir";
        Resolve "${chip_root}/${silabs_board}"
          ({[ "silabs_board" := "b2" ]} ∪ {[ "chip_root" := "/r" ]});
        Validate "/r/b2" "include_dir" ].
Proof.
  etransitivity.
  - apply (proj1 (proj2 (board_dependent_search (H := sample_host ["/r/b2"] [] [])
                    {[ "chip_root" := "/r" ]} ["b1"; "b2"; "b3"]
                    ["${silabs_board}"] get_siwx917_board_vars "/r" false
                    empty_tally "${chip_root}/${silabs_board}" "include_dir"
                    eq_refl eq_refl (not_elem_of_empty _)))
             ["b1"] "b2" ["b3"] eq_refl).
    + constructor; [vm_compute; reflexivity | constructor].
    + vm_compute. reflexivity.
  - vm_compute. reflexivity.
Defined.

(** C1 as stated fails: [${slc_gen_path}] is a board variable of the first
    hardware line, and with the flag of line 234 set an expression that
    names it is counted as skipped before any combination is tried.  Of the
    three fallback boards the path exists for the second only: without the
    flag two checks are counted, with it none and no call is made. *)
Lemma slc_gen_expression_not_searched :
  has_board_var efr32_board_var_substrings "${slc_gen_path}/autogen" = true
  /\ total_checked
       (@main slc_gen_host
          (@MkArguments slc_gen_host "/r" None None None false false false)) = 2
  /\ @main slc_gen_host
       (@MkArguments slc_gen_host "/r" None None None false true false)
     = Outcome 0 [] 0 0 1 [].
Proof. repeat split; vm_compute; reflexivity. Qed.

(** Scenario 4: with the skip-conditional flag the same expression is
    counted as skipped, and no call is made. *)
Lemma skip_conditional_skips_witness :
  @visit (sample_host ["/r/b2"] [] []) string
    {[ "chip_root" := "/r" ]} ["b1"; "b2"; "b3"] ["${silabs_board}"]
    get_siwx917_board_vars "/r" false true empty_tally
    ("${chip_root}/${silabs_board}", "include_dir")
  = Tally [] 0 0 1 ({[ ("${chip_root}/${silabs_board}", "include_dir") ]} ∪ ∅) [].
Proof.
  etransitivity.
  - apply (proj1 (skip_conditional_skips (H := sample_host ["/r/b2"] [] [])
                    {[ "chip_root" := "/r" ]} ["b1"; "b2"; "b3"]
                    ["${silabs_board}"] get_siwx917_board_vars "/r" false
                    empty_tally "${chip_root}/${silabs_board}" "include_dir"
                    eq_refl)).
    apply not_elem_of_empty.
  - vm_compute. reflexivity.
Defined.

(** The same include directory listed twice: the second occurrence leaves
    the state of the loop as it was. *)
Lemma repeated_pairs_ignored_witness :
  fold_left
    (@visit (sample_host ["/r"] [] []) string {[ "chip_root" := "/r" ]}
       ["b1"] ["${silabs_board}"] get_siwx917_board_vars "/r" false false)
    ([("${chip_root}/foo", "include_dir")] ++ [("${chip_root}/foo", "include_dir")])
    empty_tally
  = fold_left
      (@visit (sample_host ["/r"] [] []) string {[ "chip_root" := "/r" ]}
         ["b1"] ["${silabs_board}"] get_siwx917_board_vars "/r" false false)
      [("${chip_root}/foo", "include_dir")]
      empty_tally.
Proof.
  apply (proj1 (repeated_pairs_ignored (H := sample_host ["/r"] [] [])
                  {[ "chip_root" := "/r" ]} ["b1"] ["${silabs_board}"]
                  get_siwx917_board_vars "/r" false false
                  ("include_dirs = [ " +:+ quoted "${chip_root}/foo" +:+ ", "
                   +:+ quoted "${chip_root}/foo" +:+ " ]"))
           [("${chip_root}/foo", "include_dir")]
           ("${chip_root}/foo", "include_dir") []).
  - vm_compute. reflexivity.
  - constructor.
Defined.

(** * The entry point: claim C7 *)

Section MainFacts.
Context `{Host} {Combo : Type}.
Variables (base_vars : gmap string string)
          (board_combos : list Combo)
          (board_var_substrings : list string)
          (get_board_vars : Combo -> gmap string string)
          (root : path)
          (slc_flag cond_flag : bool).

Local Abbreviation search := (board_search base_vars get_board_vars root).
Local Abbreviation visit' :=
  (visit base_vars board_combos board_var_substrings get_board_vars root
     slc_flag cond_flag).

Lemma board_search_missing (raw ctx : string) (combos : list Combo) t rc :
  missing (search raw ctx combos t rc).1.1 = missing t.
Proof.
  revert t rc. induction combos as [|c combos IH]; intros t rc; simpl.
  - reflexivity.
  - destruct (resolve_path raw _) as [r|]; [|reflexivity].
    destruct (validate_path r ctx root) as [[|] msg]; [reflexivity|].
    now rewrite IH.
Qed.

(** The reports are only added to. *)
Lemma visit_missing_grows (t : tally) (e : string * string) :
  exists l, missing (visit' t e) = missing t ++ l.
Proof.
  destruct e as [raw ctx]. unfold visit.
  destruct (bool_decide ((raw, ctx) ∈ seen t)); [exists []; now rewrite app_nil_r|].
  destruct (slc_gen_skipped slc_flag raw); [exists []; now rewrite app_nil_r|].
  destruct (has_board_var board_var_substrings raw).
  - destruct cond_flag; [exists []; now rewrite app_nil_r|].
    pose proof (board_search_missing raw ctx board_combos
                  (add_seen (raw, ctx) t) None) as Hm.
    destruct (search raw ctx board_combos _ None) as [[t' ok] rc'].
    simpl in Hm.
    destruct (negb ok && bool_decide (rc' <> None)).
    + eexists. simpl. rewrite Hm. reflexivity.
    + exists []. now rewrite app_nil_r.
  - destruct (resolve_path raw base_vars) as [r|];
      [|exists []; now rewrite app_nil_r].
    destruct (validate_path r ctx root) as [[|] msg].
    + exists []. now rewrite app_nil_r.
    + eexists. reflexivity.
Qed.

Lemma fold_visit_missing_grows (l : list (string * string)) (t : tally) :
  exists m, missing (fold_left visit' l t) = missing t ++ m.
Proof.
  revert t. induction l as [|e l IH]; intros t; simpl.
  - exists []. now rewrite app_nil_r.
  - destruct (IH (visit' t e)) as [m Hm].
    destruct (visit_missing_grows t e) as [m0 Hm0].
    exists (m0 ++ m). now rewrite Hm, Hm0, <- List.app_assoc.
Qed.

(** An expression without a board variable, met for the first time, that
    resolves to a path which does not validate, is reported. *)
Lemma visit_plain_reports (t : tally) (raw ctx r : string) :
  (raw, ctx) ∉ seen t ->
  has_board_var board_var_substrings raw = false ->
  slc_gen_skipped slc_flag raw = false ->
  resolve_path raw base_vars = Some r ->
  fst (validate_path r ctx root) = false ->
  missing (visit' t (raw, ctx))
  = missing t ++ [(raw, ctx, snd (validate_path r ctx root))].
Proof.
  intros Hnew Hboard Hslc Hres Hval. unfold visit.
  rewrite bool_decide_eq_false_2, Hslc, Hboard, Hres by assumption.
  destruct (validate_path r ctx root) as [ok msg]. simpl in Hval. subst ok.
  reflexivity.
Qed.

Lemma fold_visit_reports (l : list (string * string)) (t : tally)
    (raw ctx r : string) :
  (raw, ctx) ∈ l -> (raw, ctx) ∉ seen t ->
  has_board_var board_var_substrings raw = false ->
  slc_gen_skipped slc_flag raw = false ->
  resolve_path raw base_vars = Some r ->
  fst (validate_path r ctx root) = false ->
  missing (fold_left visit' l t) <> [].
Proof.
  intros Hin Hnew Hboard Hslc Hres Hval. revert t Hin Hnew.
  induction l as [|e l IH]; intros t Hin Hnew.
  - now apply elem_of_nil in Hin.
  - simpl. destruct (decide (e = (raw, ctx))) as [->|Hne].
    + destruct (fold_visit_missing_grows l (visit' t (raw, ctx))) as [m ->].
      rewrite (visit_plain_reports t raw ctx r) by assumption.
      rewrite <- List.app_assoc. destruct (missing t); discriminate.
    + apply IH.
      * apply elem_of_cons in Hin as [Hin|Hin]; [congruence|exact Hin].
      * rewrite visit_seen. set_solver.
Qed.

(** A run over a description that lists such an expression reports a
    missing path. *)
Lemma run_tally_reports (content raw ctx r : string) :
  (raw, ctx) ∈ extract_path_expressions content ->
  has_board_var board_var_substrings raw = false ->
  slc_gen_skipped slc_flag raw = false ->
  resolve_path raw base_vars = Some r ->
  fst (validate_path r ctx root) = false ->
  missing (run_tally base_vars board_combos board_var_substrings
             get_board_vars root slc_flag cond_flag content) <> [].
Proof.
  intros Hin. unfold run_tally, visit_all.
  apply fold_visit_reports; [exact Hin | set_solver].
Qed.
End MainFacts.

Lemma main_unfold `{Host} (args : arguments) :
  main args =
  if negb (path_exists (efr32_gni_path args)) then Outcome 1 [] 0 0 0 []
  else if read_fails (efr32_gni_path args) then Outcome 1 [] 0 0 0 []
  else
    let t :=
      run_tally (efr32_base_vars args) (efr32_board_combos args)
        efr32_board_var_substrings (get_efr32_board_vars args) (chip_root args)
        (skip_slc_gen args) (skip_conditional args)
        (read_text (efr32_gni_path args)) in
    match siwx917_run args with
    | ReadRaised =>
        Outcome 1 (tag_missing "efr32_sdk.gni" (missing t))
          (checked t) (unresolved t) (conditional_skipped t) (calls t)
    | second =>
        let t2 := match second with Ran t2 => t2 | _ => empty_tally end in
        let all_missing :=
          tag_missing "efr32_sdk.gni" (missing t)
          ++ tag_missing "SiWx917_sdk.gni" (missing t2) in
        Outcome
          (match all_missing with [] => 0 | _ :: _ => 1 end)
          all_missing
          (checked t + checked t2)
          (unresolved t + unresolved t2)
          (conditional_skipped t + conditional_skipped t2)
          (calls t ++ calls t2)
    end.
Proof. reflexivity. Qed.


Lemma main_cases `{Host} (args : arguments) :
  (path_exists (efr32_gni_path args) = false /\ main args = Outcome 1 [] 0 0 0 [])
  \/ (path_exists (efr32_gni_path args) = true /\ read_raises args = true
      /\ exit_status (main args) = 1)
  \/ (path_exists (efr32_gni_path args) = true /\ read_raises args = false
      /\ all_missing (main args)
         = tag_missing "efr32_sdk.gni" (efr32_reports args)
           ++ tag_missing "SiWx917_sdk.gni" (siwx917_reports args)
      /\ exit_status (main args)
         = match all_missing (main args) with [] => 0 | _ :: _ => 1 end).
Proof.
  rewrite !main_unfold. unfold read_raises, siwx917_reports, efr32_reports,
    siwx917_run, run_gni_validation.
  destruct (path_exists (efr32_gni_path args)); [|left; split; reflexivity].
  right. cbn [negb andb].
  destruct (read_fails (efr32_gni_path args));
    [left; repeat split; reflexivity|].
  cbn [orb]. cbv zeta.
  destruct (wifi_sdk_root args) as [wifi|];
    [|right; repeat split; reflexivity].
  destruct (no_siwx917 args); cbn [negb andb];
    [right; repeat split; reflexivity|].
  destruct (path_exists (siwx917_gni args)); cbn [andb];
    [|right; repeat split; reflexivity].
  destruct (read_fails (siwx917_gni args));
    [left; repeat split; reflexivity | right; repeat split; reflexivity].
Qed.

(** C7, as amended.  The process ends with a non-zero status exactly when
    the primary build description does not exist, a build description that
    exists and is to be validated cannot be read, or a missing or invalid
    path was recorded; the status is 0 or 1.  When the primary file does
    not exist the run ends at once: nothing is counted and no call is made.
    When no read raises, the recorded paths are the reports of the run over
    the primary build description followed by those of the run over the
    second one, each under the name of its file; with no report from either
    run the status is zero, whatever the counts of unresolved and skipped
    expressions.  An expression of either build description that names no
    board variable, is not set aside by line 234, and resolves against the
    base bindings to a path that does not validate, makes the status 1. *)
Theorem main_exit_status `{Host} (args : arguments) :
  (exit_status (main args) <> 0 <->
     path_exists (efr32_gni_path args) = false
     \/ read_raises args = true
     \/ all_missing (main args) <> [])
  /\ (exit_status (main args) = 0 \/ exit_status (main args) = 1)
  /\ (path_exists (efr32_gni_path args) = false ->
      main args = Outcome 1 [] 0 0 0 [])
  /\ (path_exists (efr32_gni_path args) = true -> read_raises args = false ->
      all_missing (main args)
      = tag_missing "efr32_sdk.gni" (efr32_reports args)
        ++ tag_missing "SiWx917_sdk.gni" (siwx917_reports args))
  /\ (path_exists (efr32_gni_path args) = true -> read_raises args = false ->
      efr32_reports args = [] -> siwx917_reports args = [] ->
      exit_status (main args) = 0)
  /\ (forall raw ctx r,
        (raw, ctx) ∈ extract_path_expressions (read_text (efr32_gni_path args)) ->
        has_board_var efr32_board_var_substrings raw = false ->
        slc_gen_skipped (skip_slc_gen args) raw = false ->
        resolve_path raw (efr32_base_vars args) = Some r ->
        fst (validate_path r ctx (chip_root args)) = false ->
        exit_status (main args) = 1)
  /\ (forall wifi raw ctx r,
        wifi_sdk_root args = Some wifi -> no_siwx917 args = false ->
        path_exists (siwx917_gni args) = true ->
        (raw, ctx) ∈ extract_path_expressions (read_text (siwx917_gni args)) ->
        has_board_var ["${silabs_board}"] raw = false ->
        slc_gen_skipped (skip_slc_gen args) raw = false ->
        resolve_path raw (siwx917_base_vars args wifi) = Some r ->
        fst (validate_path r ctx (chip_root args)) = false ->
        exit_status (main args) = 1).
Proof.
  pose proof (main_cases args) as Hc.
  assert (forall l : list (string * string * string * string),
            match l with [] => 0 | _ :: _ => 1 end <> 0 <-> l <> []) as Hl.
  { intros [|x l]; split; intros E; try discriminate; now contradiction E. }
  refine (conj _ (conj _ (conj _ (conj _ (conj _ (conj _ _)))))).
  - destruct Hc as [[He ->] | [[He [Hr ->]] | [He [Hr [_ ->]]]]].
    + split; [now left | discriminate].
    + split; [now (right; left) | discriminate].
    + rewrite Hl. split; [now (right; right)|].
      intros [E | [E | E]]; [congruence | congruence | exact E].
  - destruct Hc as [[He ->] | [[He [Hr ->]] | [He [Hr [_ ->]]]]];
      [now right | now right |].
    destruct (all_missing (main args)); [now left | now right].
  - intros He. destruct Hc as [[_ E] | [[E _] | [E _]]]; [exact E | congruence ..].
  - intros He Hr. destruct Hc as [[E _] | [[_ [E _]] | [_ [_ [E _]]]]];
      [congruence | congruence | exact E].
  - intros He Hr H1 H2. destruct Hc as [[E _] | [[_ [E _]] | [_ [_ [Em E]]]]];
      [congruence | congruence |].
    rewrite E, Em, H1, H2. reflexivity.
  - intros raw ctx r Hin Hb Hs Hres Hv.
    pose proof (run_tally_reports (efr32_base_vars args) (efr32_board_combos args)
                  efr32_board_var_substrings (get_efr32_board_vars args)
                  (chip_root args) (skip_slc_gen args) (skip_conditional args)
                  _ raw ctx r Hin Hb Hs Hres Hv) as Hm.
    destruct Hc as [[_ ->] | [[_ [_ E]] | [_ [_ [Em E]]]]];
      [reflexivity | exact E |].
    rewrite E, Em. unfold efr32_reports, run_gni_validation. cbn [fst].
    destruct (missing (run_tally _ _ _ _ _ _ _ _)) as [|[[a b] c] m];
      [now contradiction Hm | reflexivity].
  - intros wifi raw ctx r Hw Hn Hex Hin Hb Hs Hres Hv.
    pose proof (run_tally_reports (siwx917_base_vars args wifi) (siwx917_boards args)
                  ["${silabs_board}"] get_siwx917_board_vars
                  (chip_root args) (skip_slc_gen args) (skip_conditional args)
                  _ raw ctx r Hin Hb Hs Hres Hv) as Hm.
    destruct Hc as [[_ ->] | [[_ [_ E]] | [_ [_ [Em E]]]]];
      [reflexivity | exact E |].
    rewrite E, Em. unfold siwx917_reports, run_gni_validation.
    rewrite Hw, Hn, Hex. cbn [negb andb fst].
    destruct (missing (run_tally (siwx917_base_vars args wifi) _ _ _ _ _ _ _))
      as [|[[a b] c] m]; [now contradiction Hm|].
    destruct (tag_missing "efr32_sdk.gni" _); reflexivity.
Qed.

(** Four runs: a build description whose only expression names an unknown
    variable ends with status 0; one that lists a directory which is not on
    disk, and a second build description that lists a library which is not
    on disk, end with status 1; so does a primary build description that is
    a directory. *)
Lemma main_exit_status_witness :
  exit_status (@main unresolved_only_host
                 (@MkArguments unresolved_only_host "/r" None None None false false false))
  = 0
  /\ exit_status (@main missing_directory_host
                    (@MkArguments missing_directory_host "/r" None None None
                       false false false))
     = 1
  /\ exit_status (@main missing_library_host
                    (@MkArguments missing_library_host "/r" None (Some "/w") None
                       false false false))
     = 1
  /\ exit_status (@main gni_directory_host
                    (@MkArguments gni_directory_host "/r" None None None
                       false false false))
     <> 0.
Proof.
  refine (conj _ (conj _ (conj _ _))).
  - apply (proj1 (proj2 (proj2 (proj2 (proj2
             (@main_exit_status unresolved_only_host
                (@MkArguments unresolved_only_host "/r" None None None
                   false false false)))))));
      vm_compute; reflexivity.
  - apply (proj1 (proj2 (proj2 (proj2 (proj2 (proj2
             (@main_exit_status missing_directory_host
                (@MkArguments missing_directory_host "/r" None None None
                   false false false)))))))
             "${chip_root}/foo" "include_dir" "/r/foo").
    + apply list_elem_of_In. vm_compute. left. reflexivity.
    + reflexivity.
    + reflexivity.
    + vm_compute. reflexivity.
    + vm_compute. reflexivity.
  - apply (proj2 (proj2 (proj2 (proj2 (proj2 (proj2
             (@main_exit_status missing_library_host
                (@MkArguments missing_library_host "/r" None (Some "/w") None
                   false false false)))))))
             "/w" "${wifi_sdk_root}/lib/x.a" "lib" "/w/lib/x.a").
    + reflexivity.
    + reflexivity.
    + vm_compute. reflexivity.
    + apply list_elem_of_In. vm_compute. left. reflexivity.
    + reflexivity.
    + reflexivity.
    + vm_compute. reflexivity.
    + vm_compute. reflexivity.
  - apply (proj1 (@main_exit_status gni_directory_host
                    (@MkArguments gni_directory_host "/r" None None None
                       false false false))).
    right. left. vm_compute. reflexivity.
Defined.

(** C7 as stated fails: where the path of the primary build description is
    a directory, the file exists for the script, reading it raises, and the
    process ends with status 1 with no missing path recorded. *)
Lemma main_fails_without_report :
  @path_exists gni_directory_host
    (@efr32_gni_path gni_directory_host
       (@MkArguments gni_directory_host "/r" None None None false false false))
  = true
  /\ @is_dir gni_directory_host
       (@efr32_gni_path gni_directory_host
          (@MkArguments gni_directory_host "/r" None None None false false false))
     = true
  /\ all_missing (@main gni_directory_host
                    (@MkArguments gni_directory_host "/r" None None None
                       false false false))
     = []
  /\ exit_status (@main gni_directory_host
                    (@MkArguments gni_directory_host "/r" None None None
                       false false false))
     = 1.
Proof. repeat split; vm_compute; reflexivity. Qed.

Example main_counts_unresolved :
  total_unresolved
    (@main unresolved_only_host
             (@MkArguments unresolved_only_host "/r" None None None false false false))
  = 1.
Proof. vm_compute. reflexivity. Qed.

(** * End-to-end scenarios *)

(** Scenario 1: one include directory that exists. *)
Example scenario_existing_directory :
  @run_gni_validation (sample_host ["/r"; "/r/foo"] [] []) string
    {[ "chip_root" := "/r" ]} ["b1"] ["${silabs_board}"] get_siwx917_board_vars
    "/r" false false
    ("include_dirs = [ " +:+ quoted "${chip_root}/foo" +:+ " ]")
  = ([], 1, 0, 0).
Proof. vm_compute. reflexivity. Qed.

(** Scenario 2: the directory does not exist. *)
Example scenario_missing_directory :
  @run_gni_validation (sample_host ["/r"] [] []) string
    {[ "chip_root" := "/r" ]} ["b1"] ["${silabs_board}"] get_siwx917_board_vars
    "/r" false false
    ("include_dirs = [ " +:+ quoted "${chip_root}/foo" +:+ " ]")
  = ([("${chip_root}/foo", "include_dir", "missing: /r/foo")], 1, 0, 0).
Proof. vm_compute. reflexivity. Qed.

(** Scenario 5: the primary build description does not exist. *)
Example scenario_no_build_description :
  @main (sample_host ["/r"] [] [])
    (@MkArguments (sample_host ["/r"] [] []) "/r" None None None false false false)
  = Outcome 1 [] 0 0 0 [].
Proof. vm_compute. reflexivity. Qed.

(** * Further properties of the resolver *)

Module ResolveMore.
Import Str StrFacts ResolveFacts ResolveInvariant.

Lemma contains_dollar_opening (s : string) :
  contains "$" s = false -> contains "${" s = false.
Proof.
  intros H. destruct (contains "${" s) eqn:E; [|reflexivity].
  apply contains_iff in E as [a [b ->]].
  assert (contains "$" (a +:+ "${" +:+ b) = true) as H'; [|congruence].
  apply contains_iff. now exists a, ("{" +:+ b).
Qed.

Lemma contains_dollar_app (a b : string) :
  contains "$" a = false -> contains "$" b = false ->
  contains "$" (a +:+ b) = false.
Proof.
  intros Ha Hb. induction a as [|c a IH]; [exact Hb|].
  rewrite contains_cons in Ha. apply orb_false_iff in Ha as [Hc Ha].
  change (String c a +:+ b) with (String c (a +:+ b)).
  rewrite contains_cons, (IH Ha), orb_false_r. exact Hc.
Qed.

(** The leftmost placeholder of a text that has no opening before it. *)
Lemma re_search_leftmost (pre n post : string) :
  contains "${" pre = false -> is_name n ->
  re_search_placeholder (pre +:+ group0 n +:+ post) = Some n.
Proof.
  intros Hpre Hn. induction pre as [|c pre IH].
  - change ("" +:+ group0 n +:+ post) with (group0 n +:+ post).
    now rewrite re_search_unfold, placeholder_at_name.
  - change (String c pre +:+ group0 n +:+ post)
      with (String c (pre +:+ group0 n +:+ post)).
    rewrite re_search_unfold.
    assert (placeholder_at (String c (pre +:+ group0 n +:+ post)) = None) as ->.
    { unfold placeholder_at.
      destruct (startswith (String c (pre +:+ group0 n +:+ post)) "${") eqn:E;
        [|reflexivity].
      exfalso. rewrite contains_cons in Hpre.
      apply orb_false_iff in Hpre as [Hsw _].
      rewrite startswith_two in E, Hsw.
      apply andb_true_iff in E as [Ec E]. rewrite Ec in Hsw. simpl in Hsw.
      destruct pre as [|c2 pre]; [discriminate E|].
      simpl in E, Hsw. congruence. }
    apply IH. eapply contains_tail. exact Hpre.
Qed.

Lemma replace_first_plain (pre n post v : string) :
  contains "$" pre = false ->
  replace_first (pre +:+ group0 n +:+ post) (group0 n) v = pre +:+ v +:+ post.
Proof.
  intros Hpre. induction pre as [|c pre IH].
  - exact (replace_first_here (group0 n) post v).
  - rewrite contains_cons in Hpre. apply orb_false_iff in Hpre as [Hc Hpre].
    change (String c pre +:+ group0 n +:+ post)
      with (String c (pre +:+ group0 n +:+ post)).
    rewrite replace_first_cons, (IH Hpre); [reflexivity|].
    simpl in Hc. rewrite andb_true_r in Hc. unfold group0. simpl. now rewrite Hc.
Qed.

Lemma instantiate_all vars (segs : list (string * string)) (last : string) k :
  length segs <= k ->
  instantiate vars k segs last = instantiate vars (length segs) segs last.
Proof.
  revert k. induction segs as [|[text name] segs IH]; intros k Hk; [reflexivity|].
  destruct k as [|k]; simpl in Hk; [lia|]. simpl. rewrite (IH k) by lia.
  reflexivity.
Qed.

Lemma instantiate_plain vars (segs : list (string * string)) (last : string) k :
  plain_template vars segs last -> length segs <= k ->
  contains "$" (instantiate vars k segs last) = false.
Proof.
  intros [Hsegs Hlast]. revert k.
  induction Hsegs as [|[text name] segs [Ht [Hn [v [Hv Hvd]]]] _ IH]; intros k Hk;
    [exact Hlast|].
  destruct k as [|k]; simpl in Hk; [lia|]. simpl in *. rewrite Hv. simpl.
  apply contains_dollar_app; [assumption|].
  apply contains_dollar_app; [assumption|]. apply IH. lia.
Qed.

Lemma instantiate_pending vars (segs : list (string * string)) (last : string) k :
  k < length segs -> contains "${" (instantiate vars k segs last) = true.
Proof.
  revert k. induction segs as [|[text name] segs IH]; intros k Hk; simpl in Hk; [lia|].
  destruct k as [|k]; simpl.
  - apply contains_group0.
  - apply contains_iff.
    specialize (IH k ltac:(lia)). apply contains_iff in IH as [a [b ->]].
    exists (text +:+ default "" (vars !! name) +:+ a), b.
    now rewrite !app_assoc.
Qed.

(** The loop on a plain template: one placeholder is replaced in every
    iteration, from the left, until none or no iteration is left. *)
Lemma resolve_loop_template vars (segs : list (string * string)) (last : string) :
  plain_template vars segs last ->
  forall fuel acc,
    contains "$" acc = false ->
    resolve_loop vars fuel (acc +:+ instantiate vars 0 segs last)
    = (Some (acc +:+ instantiate vars fuel segs last), Nat.min fuel (length segs)).
Proof.
  intros [Hsegs Hlast].
  induction Hsegs as [|[text name] segs [Ht [Hn [v [Hv Hvd]]]] Hsegs IH];
    intros fuel acc Hacc.
  - simpl instantiate. rewrite resolve_loop_done, Nat.min_0_r; [reflexivity|].
    now apply contains_dollar_opening, contains_dollar_app.
  - destruct fuel as [|fuel].
    + simpl. now destruct (contains "${" _).
    + simpl in Ht, Hn, Hv. rewrite resolve_loop_unfold.
      change (instantiate vars 0 ((text, name) :: segs) last)
        with (text +:+ group0 name +:+ instantiate vars 0 segs last).
      change (instantiate vars (S fuel) ((text, name) :: segs) last)
        with (text +:+ default "" (vars !! name)
              +:+ instantiate vars fuel segs last).
      rewrite <- (app_assoc acc text).
      rewrite contains_group0, re_search_leftmost, Hv;
        [| now apply contains_dollar_opening, contains_dollar_app | assumption].
      rewrite replace_first_plain by now apply contains_dollar_app.
      rewrite <- (app_assoc (acc +:+ text) v).
      rewrite IH by (apply contains_dollar_app;
                     [now apply contains_dollar_app | assumption]).
      simpl. rewrite !app_assoc. reflexivity.
Qed.

End ResolveMore.

(** X1.  On a plain template every placeholder is replaced by the value of
    its variable, from the left, one in each iteration: with at most 20
    placeholders the result is the text with all values in place and
    doubled separators collapsed; with more than 20 the bound of the loop
    is met first and the result is [None], although every variable is
    bound. *)
Theorem resolve_path_template (vars : gmap string string)
    (segs : list (string * string)) (last : string) :
  plain_template vars segs last ->
  resolve_iterations (instantiate vars 0 segs last) vars
  = Nat.min 20 (length segs)
  /\ (length segs <= 20 ->
      resolve_path (instantiate vars 0 segs last) vars
      = Some (Str.replace_double_slash
                (instantiate vars (length segs) segs last)))
  /\ (20 < length segs ->
      resolve_path (instantiate vars 0 segs last) vars = None).
Proof.
  intros Hplain.
  pose proof (ResolveMore.resolve_loop_template vars segs last Hplain 20 ""
                eq_refl) as Hloop.
  change ("" +:+ instantiate vars 0 segs last)
    with (instantiate vars 0 segs last) in Hloop.
  change ("" +:+ instantiate vars 20 segs last)
    with (instantiate vars 20 segs last) in Hloop.
  unfold resolve_iterations. rewrite ResolveFacts.resolve_path_spec, Hloop.
  cbn [fst snd]. split; [reflexivity|]. split; intros Hlen.
  - rewrite (ResolveMore.instantiate_all vars segs last 20 Hlen).
    rewrite ResolveMore.contains_dollar_opening; [reflexivity|].
    now apply ResolveMore.instantiate_plain.
  - now rewrite ResolveMore.instantiate_pending.
Qed.

Lemma resolve_path_template_witness :
  resolve_path "${chip_root}/src/${board}.c"
    {[ "chip_root" := "/r"; "board" := "brd" ]}
  = Some "/r/src/brd.c".
Proof.
  refine (proj1 (proj2 (resolve_path_template
                          {[ "chip_root" := "/r"; "board" := "brd" ]}
                          [("", "chip_root"); ("/src/", "board")] ".c" _)) _).
  - split; [|reflexivity].
    repeat constructor; try discriminate; eexists; split; reflexivity.
  - simpl. lia.
Defined.

(** X2.  When the leftmost placeholder of an expression names a variable
    that the dictionary does not bind, the result is [None] for every
    dictionary, and the loop is left in its first iteration. *)
Theorem resolve_path_leftmost_unbound (vars : gmap string string)
    (pre n post : string) :
  Str.contains "${" pre = false -> is_name n -> vars !! n = None ->
  resolve_path (pre +:+ group0 n +:+ post) vars = None
  /\ resolve_iterations (pre +:+ group0 n +:+ post) vars = 1.
Proof.
  intros Hpre Hn Hnone. unfold resolve_iterations.
  rewrite ResolveFacts.resolve_path_spec, ResolveFacts.resolve_loop_unfold.
  rewrite ResolveInvariant.contains_group0, ResolveMore.re_search_leftmost, Hnone
    by assumption.
  split; reflexivity.
Qed.

Lemma resolve_path_leftmost_unbound_witness :
  resolve_path "lib/${silabs_board}/${chip_root}" {[ "chip_root" := "/r" ]} = None
  /\ resolve_iterations "lib/${silabs_board}/${chip_root}" {[ "chip_root" := "/r" ]} = 1.
Proof.
  apply (resolve_path_leftmost_unbound _ "lib/" "silabs_board" "/${chip_root}").
  - reflexivity.
  - split; [discriminate | reflexivity].
  - reflexivity.
Defined.

(** * Further properties of the extractor *)

Module ExtractMore.
Import Str StrFacts ResolveFacts ExtractFacts.

Lemma quoted_at_opening (s g : string) :
  quoted_at s = Some g -> startswith g "${" = true.
Proof.
  unfold quoted_at. destruct s as [|q s1]; [discriminate|].
  destruct (_ && _); [|discriminate].
  destruct (run_until "}" _) as [[[|a k] r1]|]; try discriminate.
  destruct (run_until dquote r1) as [[t r2]|]; [|discriminate].
  intros [= <-]. reflexivity.
Qed.

Lemma finditer_quoted_cons (c : ascii) (line : string) (skip : nat) :
  finditer_quoted skip (String c line) =
  match skip with
  | S k => finditer_quoted k line
  | 0 =>
      match quoted_at (String c line) with
      | Some g => g :: finditer_quoted (String.length g + 1) line
      | None => finditer_quoted 0 line
      end
  end.
Proof. reflexivity. Qed.

Lemma finditer_quoted_opening (line : string) (skip : nat) :
  Forall (fun g => startswith g "${" = true) (finditer_quoted skip line).
Proof.
  revert skip. induction line as [|c line IH]; intros skip; [constructor|].
  rewrite finditer_quoted_cons.
  destruct skip as [|k]; [|apply IH].
  destruct (quoted_at (String c line)) as [g|] eqn:E; [|apply IH].
  constructor; [now apply quoted_at_opening in E | apply IH].
Qed.

Lemma rstrip_with_keeps_two (f : ascii -> bool) (a b : ascii) (x : string) :
  f b = false ->
  exists y, rstrip_with f (String a (String b x)) = String a (String b y).
Proof.
  intros Hb.
  assert (exists y, rstrip_with f (String b x) = String b y) as [y Hy].
  { simpl. destruct (rstrip_with f x) as [|c t]; [rewrite Hb|]; eauto. }
  exists y. change (rstrip_with f (String a (String b x)))
    with (match rstrip_with f (String b x) with
          | EmptyString => if f a then EmptyString else String a EmptyString
          | String c t => String a (String c t)
          end).
  now rewrite Hy.
Qed.

Lemma strip_opening (x : string) :
  exists y, strip (String "$" (String "{" x)) = String "$" (String "{" y).
Proof.
  unfold strip.
  change (lstrip_with isspace (String "$" (String "{" x)))
    with (String "$" (String "{" x)).
  now apply rstrip_with_keeps_two.
Qed.

Lemma rstrip_comma_opening (x : string) :
  exists y, rstrip_comma (String "$" (String "{" x)) = String "$" (String "{" y).
Proof. unfold rstrip_comma. now apply rstrip_with_keeps_two. Qed.

(** Tidying removes nothing from the opening of the candidate. *)
Lemma tidy_opening (g : string) :
  startswith g "${" = true -> startswith (tidy g) "${" = true.
Proof.
  intros Hg. apply startswith_iff in Hg as [r ->]. unfold tidy.
  change (before_sep "//" ("${" +:+ r))
    with (String "$" (String "{" (before_sep "//" r))).
  destruct (strip_opening (before_sep "//" r)) as [y1 H1]. rewrite H1.
  destruct (rstrip_comma_opening y1) as [y2 H2]. rewrite H2.
  destruct (strip_opening y2) as [y3 H3]. rewrite H3. cbv zeta.
  destruct (endswith _ _) eqn:E; [|reflexivity].
  destruct y3 as [|c y3]; [discriminate E | reflexivity].
Qed.

Lemma line_marker_values (line c : string) :
  line_marker line = Some c -> c = "include_dir" \/ c = "lib" \/ c = "source".
Proof.
  unfold line_marker.
  destruct (_ || _); [intros [= <-]; auto|].
  destruct (_ || _); [intros [= <-]; auto|].
  destruct (_ && _); [intros [= <-]; auto | discriminate].
Qed.

Lemma context_at_values (lines : list string) (i : nat) :
  context_at lines i = "include_dir" \/ context_at lines i = "lib"
  \/ context_at lines i = "source".
Proof.
  unfold context_at.
  destruct (last (omap line_marker (take (S i) lines))) as [c|] eqn:E; simpl; [|auto].
  apply last_Some_elem_of, list_elem_of_omap in E as [line [_ Hc]].
  now apply line_marker_values in Hc.
Qed.

(** Every emitted pair comes from a match on some line and carries the
    context in force there. *)
Lemma extract_origin (content : string) (e : string * string) :
  e ∈ extract_path_expressions content ->
  exists i line g,
    split_lines content !! i = Some line
    /\ In g (finditer_quoted 0 line)
    /\ e = (tidy g, context_at (split_lines content) i)
    /\ accepts (tidy g) = true.
Proof.
  intros He. unfold extract_path_expressions in He.
  pose proof (extract_lines_spec (split_lines content) [] []) as E.
  change (default "source" (last (omap line_marker []))) with "source" in E.
  rewrite E in He. clear E. simpl in He.
  apply list_elem_of_In, in_concat in He as [l [Hl He]].
  apply list_elem_of_In, elem_of_lookup_imap in Hl as [i [line [-> Hi]]].
  unfold emitted in He. apply in_map_iff in He as [raw [<- Hraw]].
  apply filter_In in Hraw as [Hraw Hacc].
  apply in_map_iff in Hraw as [g [<- Hg]]. now exists i, line, g.
Qed.

(** A line is a piece of the text it was split from. *)
Lemma split_lines_pieces (s : string) :
  match split_lines s with
  | [] => False
  | first :: others =>
      (exists b, s = first +:+ b)
      /\ Forall (fun l => exists a b, s = a +:+ l +:+ b) others
  end.
Proof.
  induction s as [|c s IH]; simpl.
  - split; [now exists "" | constructor].
  - destruct (split_lines s) as [|first others]; [contradiction|].
    destruct IH as [[b Hb] Hothers].
    assert (Forall (fun l => exists a b, String c s = a +:+ l +:+ b) others) as H'.
    { eapply Forall_impl; [exact Hothers|]. intros l [a [b' ->]].
      now exists (String c a), b'. }
    destruct (Ascii.eqb c "010").
    + split; [now exists (String c s)|]. constructor; [|exact H'].
      exists (String c ""), b. simpl. now rewrite <- Hb.
    + split; [|exact H']. exists b. simpl. now rewrite <- Hb.
Qed.

Lemma split_lines_contains (sub s line : string) :
  contains sub s = false -> line ∈ split_lines s -> contains sub line = false.
Proof.
  intros Hs Hline. pose proof (split_lines_pieces s) as H.
  destruct (split_lines s) as [|first others]; [contradiction|].
  destruct H as [[b Hb] Hothers].
  apply elem_of_cons in Hline as [-> | Hline].
  - rewrite Hb in Hs. eapply contains_app_l. exact Hs.
  - rewrite Forall_forall in Hothers. destruct (Hothers _ Hline) as [a [b' ->]].
    eapply contains_app_l, contains_app_r. exact Hs.
Qed.

Lemma finditer_quoted_none (line : string) (skip : nat) :
  contains "${" line = false -> finditer_quoted skip line = [].
Proof.
  revert skip. induction line as [|c line IH]; intros skip Hline; [reflexivity|].
  pose proof (contains_tail _ _ _ Hline) as Htail. rewrite finditer_quoted_cons.
  destruct skip as [|k]; [|now apply IH].
  assert (quoted_at (String c line) = None) as ->; [|now apply IH].
  unfold quoted_at.
  destruct (Ascii.eqb c dquote && startswith line "${") eqn:E; [|reflexivity].
  apply andb_true_iff in E as [_ E].
  destruct line as [|d line]; [discriminate E|].
  rewrite contains_cons, E in Htail. discriminate.
Qed.

End ExtractMore.

(** X3.  Every emitted expression begins with a placeholder and contains a
    separator or ends with a closing brace, and its context is one of
    [include_dir], [lib] and [source]: a path that is written out in full,
    or that begins with literal text, is never extracted. *)
Theorem extract_path_expressions_shape (content : string) :
  Forall (fun e =>
            Str.startswith (fst e) "${" = true
            /\ (Str.contains "/" (fst e) = true \/ Str.endswith (fst e) "}" = true)
            /\ (snd e = "include_dir" \/ snd e = "lib" \/ snd e = "source"))
    (extract_path_expressions content).
Proof.
  apply Forall_forall. intros e He.
  apply ExtractMore.extract_origin in He as [i [line [g [_ [Hg [-> Hacc]]]]]].
  simpl. split; [|split].
  - apply ExtractMore.tidy_opening.
    pose proof (ExtractMore.finditer_quoted_opening line 0) as H.
    rewrite List.Forall_forall in H. now apply H.
  - unfold accepts in Hacc.
    destruct (Str.contains "${" (tidy g)); [|discriminate].
    destruct (Str.contains "/" (tidy g)); [now left|].
    destruct (Str.endswith (tidy g) "}"); [now right | discriminate].
  - apply ExtractMore.context_at_values.
Qed.

(** X4.  A text without the opening of a placeholder yields no expression:
    a build description that lists literal paths only is not validated at
    all. *)
Theorem extract_path_expressions_none (content : string) :
  Str.contains "${" content = false -> extract_path_expressions content = [].
Proof.
  intros Hc. destruct (extract_path_expressions content) as [|e es] eqn:E;
    [reflexivity|]. exfalso.
  assert (e ∈ extract_path_expressions content) as He by (rewrite E; left).
  apply ExtractMore.extract_origin in He as [i [line [g [Hi [Hg _]]]]].
  rewrite ExtractMore.finditer_quoted_none in Hg; [exact Hg|].
  eapply ExtractMore.split_lines_contains; [exact Hc|].
  eapply list_elem_of_lookup_2. exact Hi.
Qed.

Lemma extract_path_expressions_none_witness :
  extract_path_expressions
    ("include_dirs = [ " +:+ quoted "/sdk/platform/inc" +:+ " ]") = [].
Proof. apply extract_path_expressions_none. reflexivity. Defined.

(** * Further properties of the validator and of the driver *)

(** X5.  Validation succeeds exactly when the path exists and is neither a
    directory where a file is expected nor a file where a directory is
    expected; the message is empty exactly when validation succeeds; and a
    path that exists and is neither a file nor a directory validates in
    every context. *)
Theorem validate_path_success `{Host} (resolved context : string)
    (base_path : path) :
  (fst (validate_path resolved context base_path) = true <->
   path_exists (located resolved base_path) = true
   /\ (is_file_path resolved context = true ->
       is_dir (located resolved base_path) = false)
   /\ (is_file_path resolved context = false ->
       is_file (located resolved base_path) = false))
  /\ (fst (validate_path resolved context base_path) = true <->
      snd (validate_path resolved context base_path) = "")
  /\ (path_exists (located resolved base_path) = true ->
      is_dir (located resolved base_path) = false ->
      is_file (located resolved base_path) = false ->
      validate_path resolved context base_path = (true, "")).
Proof.
  unfold validate_path.
  destruct (path_exists (located resolved base_path)),
           (is_file_path resolved context),
           (is_dir (located resolved base_path)),
           (is_file (located resolved base_path)); simpl;
    intuition congruence.
Qed.

Lemma validate_path_success_witness :
  fst (@validate_path (sample_host ["/r"] ["/r/lib/libx.a"] []) "lib/libx.a" "lib" "/r")
  = true.
Proof.
  apply (proj1 (validate_path_success (H := sample_host ["/r"] ["/r/lib/libx.a"] [])
                  "lib/libx.a" "lib" "/r")).
  split; [reflexivity | split; [intros _; reflexivity | discriminate]].
Defined.

Lemma size_add_seen (e : string * string) (s : gset (string * string)) :
  e ∉ s -> size ({[ e ]} ∪ s) = S (size s).
Proof.
  intros He. rewrite size_union by set_solver. now rewrite size_singleton.
Qed.

Lemma accounted_grow (t : tally) (e : string * string) :
  accounted t -> e ∉ seen t ->
  Forall (fun m => fst m ∈ ({[ e ]} ∪ seen t : gset _)) (missing t)
  /\ e ∉ map fst (missing t).
Proof.
  intros [_ [_ [Hin _]]] He. split.
  - eapply Forall_impl; [exact Hin|]. intros m Hm. set_solver.
  - intros Hmem. apply list_elem_of_fmap in Hmem as [m [-> Hm]].
    rewrite Forall_forall in Hin. apply He. now apply Hin.
Qed.

Lemma accounted_report (t : tally) (e : string * string) (msg : string)
    (c u k : nat) cs :
  accounted t -> e ∉ seen t ->
  length (missing t) + 1 <= c ->
  u + k + (length (missing t) + 1) <= S (size (seen t)) ->
  accounted (Tally (missing t ++ [(e, msg)]) c u k ({[ e ]} ∪ seen t) cs).
Proof.
  intros Hacc He Hc Hu. destruct (accounted_grow t e Hacc He) as [Hin Hfresh].
  destruct Hacc as [_ [_ [_ Hnd]]].
  unfold accounted. simpl. rewrite length_app, size_add_seen by assumption.
  simpl. repeat split; try lia.
  - apply Forall_app. split; [exact Hin|]. constructor; [|constructor].
    simpl. set_solver.
  - rewrite map_app. simpl. apply NoDup_app. repeat split; [assumption | |].
    + intros x Hx Hx'. apply list_elem_of_singleton in Hx' as ->. now apply Hfresh.
    + apply NoDup_singleton.
Qed.

Lemma accounted_quiet (t : tally) (e : string * string) (c u k : nat) cs :
  accounted t -> e ∉ seen t ->
  length (missing t) <= c ->
  u + k + length (missing t) <= S (size (seen t)) ->
  accounted (Tally (missing t) c u k ({[ e ]} ∪ seen t) cs).
Proof.
  intros Hacc He Hc Hu. destruct (accounted_grow t e Hacc He) as [Hin Hfresh].
  destruct Hacc as [_ [_ [_ Hnd]]].
  unfold accounted. simpl. rewrite size_add_seen by assumption.
  repeat split; assumption.
Qed.

Ltac tally_unfold :=
  unfold bump_skipped, bump_unresolved, bump_checked, record_call, add_missing,
    add_seen; simpl.
Ltac tally_quiet :=
  tally_unfold; apply accounted_quiet; simpl; try assumption; lia.
Ltac tally_report :=
  tally_unfold;
  match goal with
  | |- accounted (Tally (missing ?t ++ [(?e, ?msg)]) _ _ _ _ _) =>
      apply (accounted_report t e msg); simpl; try assumption; lia
  end.

Section DriverMore.
Context `{Host} {Combo : Type}.
Variables (base_vars : gmap string string)
          (board_combos : list Combo)
          (board_var_substrings : list string)
          (get_board_vars : Combo -> gmap string string)
          (root : path)
          (slc_flag cond_flag : bool).

Local Abbreviation search := (board_search base_vars get_board_vars root).
Local Abbreviation visit' :=
  (visit base_vars board_combos board_var_substrings get_board_vars root
     slc_flag cond_flag).

(** X6.  An expression that names no board variable, met for the first
    time and not set aside by line 234, is resolved once against the base
    bindings: when it does not resolve, one more unresolved expression is
    counted and nothing else changes; when it resolves, one check is
    counted, and the expression is reported with the message of the
    validator exactly when validation fails. *)
Theorem plain_expression_visit (t : tally) (raw ctx : string) :
  has_board_var board_var_substrings raw = false ->
  slc_gen_skipped slc_flag raw = false ->
  (raw, ctx) ∉ seen t ->
  (resolve_path raw base_vars = None ->
   visit' t (raw, ctx)
   = Tally (missing t) (checked t) (unresolved t + 1) (conditional_skipped t)
       ({[ (raw, ctx) ]} ∪ seen t) (calls t ++ [Resolve raw base_vars]))
  /\ (forall resolved,
        resolve_path raw base_vars = Some resolved ->
        visit' t (raw, ctx)
        = Tally
            (if fst (validate_path resolved ctx root) then missing t
             else missing t
                  ++ [(raw, ctx, snd (validate_path resolved ctx root))])
            (checked t + 1) (unresolved t) (conditional_skipped t)
            ({[ (raw, ctx) ]} ∪ seen t)
            (calls t ++ [Resolve raw base_vars; Validate resolved ctx])).
Proof.
  intros Hboard Hslc Hnew. unfold visit.
  rewrite bool_decide_eq_false_2, Hslc, Hboard by assumption. split.
  - intros ->. reflexivity.
  - intros resolved ->. destruct (validate_path resolved ctx root) as [[|] msg];
      destruct t; unfold add_missing, bump_checked, record_call, add_seen; simpl;
      rewrite <- List.app_assoc; reflexivity.
Qed.

(** What the search over the combinations does to the counters. *)
Lemma board_search_effect (raw ctx : string) (combos : list Combo) (t : tally)
    (rc : option string) :
  let '(t', ok, rc') := search raw ctx combos t rc in
  missing t' = missing t
  /\ conditional_skipped t' = conditional_skipped t
  /\ seen t' = seen t
  /\ ((rc' = None /\ ok = false /\ unresolved t' = unresolved t + 1
       /\ checked t <= checked t')
      \/ (unresolved t' = unresolved t
          /\ ((rc' = rc /\ ok = false /\ checked t' = checked t)
              \/ (rc' <> None /\ checked t < checked t')))).
Proof.
  revert t rc. induction combos as [|c combos IH]; intros t rc.
  - simpl. repeat split. right. split; [reflexivity|]. now left.
  - simpl. destruct (resolve_path raw _) as [r|].
    + destruct (validate_path r ctx root) as [[|] msg].
      * simpl. repeat split. right. split; [reflexivity|]. right.
        split; [discriminate | lia].
      * specialize (IH (bump_checked
                          (record_call (Validate r ctx)
                             (record_call
                                (Resolve raw
                                   (vars_with_board base_vars get_board_vars c))
                                t)))
                       (Some r)).
        destruct (search raw ctx combos _ (Some r)) as [[t' ok] rc'].
        simpl in IH. destruct IH as [Hm [Hs [Hseen Hcases]]].
        repeat split; try assumption.
        destruct Hcases as [[-> [-> [Hu Hc]]] | [Hu [[-> [-> Hc]] | [Hrc Hc]]]].
        -- left. repeat split; [assumption | lia].
        -- right. split; [assumption|]. right. split; [discriminate | lia].
        -- right. split; [assumption|]. right. split; [assumption | lia].
    + simpl. repeat split. left. repeat split. lia.
Qed.

Lemma visit_accounted (t : tally) (e : string * string) :
  accounted t -> accounted (visit' t e).
Proof.
  intros Hacc. destruct (decide (e ∈ seen t)) as [He|He].
  - now rewrite visit_seen_again.
  - pose proof Hacc as [Hc [Hu _]]. destruct e as [raw ctx]. unfold visit.
    rewrite bool_decide_eq_false_2 by assumption.
    destruct (slc_gen_skipped slc_flag raw); [tally_quiet|].
    destruct (has_board_var board_var_substrings raw).
    + destruct cond_flag; [tally_quiet|].
      pose proof (board_search_effect raw ctx board_combos
                    (add_seen (raw, ctx) t) None) as Heff.
      destruct (search raw ctx board_combos _ None) as [[t' ok] rc'].
      destruct t' as [m' c' u' k' s' cs']. simpl in Heff.
      destruct Heff as [-> [-> [-> Hcases]]].
      destruct Hcases as [[-> [-> [-> Hc']]] | [-> [[-> [-> ->]] | [Hrc Hc']]]].
      * tally_quiet.
      * tally_quiet.
      * destruct ok; [tally_quiet|]. simpl negb. cbv iota.
        rewrite bool_decide_eq_true_2 by assumption. simpl andb. cbv iota.
        tally_report.
    + destruct (resolve_path raw base_vars) as [r|]; [|tally_quiet].
      destruct (validate_path r ctx root) as [[|] msg];
        [tally_quiet | tally_report].
Qed.

Lemma visit_all_accounted (l : list (string * string)) (t : tally) :
  accounted t -> accounted (fold_left visit' l t).
Proof.
  revert t. induction l as [|e l IH]; intros t Hacc; [exact Hacc|].
  simpl. apply IH. now apply visit_accounted.
Qed.
End DriverMore.

Lemma empty_tally_accounted : accounted empty_tally.
Proof.
  unfold accounted. simpl. repeat split; [lia | lia | constructor | constructor].
Qed.

(** X7.  The counts a run returns: every reported path was checked, and the
    unresolved, the skipped and the reported together are at most the
    distinct pairs extracted, so no pair is counted twice among them. *)
Theorem run_gni_validation_accounting `{Host} {Combo : Type}
    (base_vars : gmap string string) (board_combos : list Combo)
    (board_var_substrings : list string)
    (get_board_vars : Combo -> gmap string string) (root : path)
    (slc_flag cond_flag : bool) (content : string) :
  let '(m, c, u, k) :=
    run_gni_validation base_vars board_combos board_var_substrings
      get_board_vars root slc_flag cond_flag content in
  length m <= c
  /\ u + k + length m
     <= size (list_to_set (extract_path_expressions content)
              : gset (string * string)).
Proof.
  unfold run_gni_validation, run_tally, visit_all. cbv zeta.
  pose proof (visit_all_accounted base_vars board_combos board_var_substrings
                get_board_vars root slc_flag cond_flag
                (extract_path_expressions content) empty_tally
                empty_tally_accounted) as [Hc [Hu _]].
  rewrite fold_visit_seen in Hu. simpl in Hu.
  rewrite (right_id_L ∅ (∪)) in Hu. split; assumption.
Qed.

(** X8.  The reports a run returns: each is about a pair that was
    extracted, and no pair is reported twice. *)
Theorem run_gni_validation_reports `{Host} {Combo : Type}
    (base_vars : gmap string string) (board_combos : list Combo)
    (board_var_substrings : list string)
    (get_board_vars : Combo -> gmap string string) (root : path)
    (slc_flag cond_flag : bool) (content : string) :
  let '(m, c, u, k) :=
    run_gni_validation base_vars board_combos board_var_substrings
      get_board_vars root slc_flag cond_flag content in
  NoDup (map fst m)
  /\ Forall (fun r => fst r ∈ extract_path_expressions content) m.
Proof.
  unfold run_gni_validation, run_tally, visit_all. cbv zeta.
  pose proof (visit_all_accounted base_vars board_combos board_var_substrings
                get_board_vars root slc_flag cond_flag
                (extract_path_expressions content) empty_tally
                empty_tally_accounted) as [_ [_ [Hin Hnd]]].
  split; [assumption|].
  eapply Forall_impl; [exact Hin|]. intros r Hr.
  rewrite fold_visit_seen in Hr. set_solver.
Qed.

(** Scenario 2 again: the include directory does not exist, so the
    expression is reported with the message of the validator. *)
Lemma plain_expression_visit_witness :
  @visit (sample_host ["/r"] [] []) string {[ "chip_root" := "/r" ]}
    ["b1"] ["${silabs_board}"] get_siwx917_board_vars "/r" false false
    empty_tally ("${chip_root}/foo", "include_dir")
  = Tally [("${chip_root}/foo", "include_dir", "missing: /r/foo")] 1 0 0
      ({[ ("${chip_root}/foo", "include_dir") ]} ∪ ∅)
      [Resolve "${chip_root}/foo" {[ "chip_root" := "/r" ]};
       Validate "/r/foo" "include_dir"].
Proof.
  etransitivity.
  - apply (proj2 (plain_expression_visit (H := sample_host ["/r"] [] [])
                    {[ "chip_root" := "/r" ]} ["b1"] ["${silabs_board}"]
                    get_siwx917_board_vars "/r" false false empty_tally
                    "${chip_root}/foo" "include_dir" eq_refl eq_refl
                    (not_elem_of_empty _))
             "/r/foo").
    vm_compute. reflexivity.
  - vm_compute. reflexivity.
Defined.

(** * The board enumerator and the roots *)

(** X9.  The enumerators list directories only.  A combination is listed
    exactly when the board-support tree of the first hardware line is a
    directory, its family is the name of a directory in it, its board the
    name of a directory in that one, and its controller the default of the
    family, empty for a family without one; a board of the second line is
    listed exactly when it names a directory of its tree.  Without the
    tree nothing is listed. *)
Theorem discovery_lists_directories `{Host} (matter_support_root : path) :
  (forall family board mcu,
      In (family, board, mcu) (discover_board_combinations matter_support_root)
      <->
      is_dir (matter_support_root </> Path "board-support" </> Path "efr32") = true
      /\ exists family_dir board_dir,
           In family_dir
              (iterdir (matter_support_root </> Path "board-support"
                        </> Path "efr32"))
           /\ is_dir family_dir = true
           /\ In board_dir (iterdir family_dir)
           /\ is_dir board_dir = true
           /\ family = path_name family_dir
           /\ board = path_name board_dir
           /\ mcu = default "" (mcu_defaults !! family))
  /\ (forall board,
        In board (discover_siwx917_boards matter_support_root)
        <->
        is_dir (matter_support_root </> Path "board-support" </> Path "si91x"
                </> Path "siwx917") = true
        /\ exists board_dir,
             In board_dir
                (iterdir (matter_support_root </> Path "board-support"
                          </> Path "si91x" </> Path "siwx917"))
             /\ is_dir board_dir = true
             /\ board = path_name board_dir)
  /\ (is_dir (matter_support_root </> Path "board-support" </> Path "efr32")
      = false ->
      discover_board_combinations matter_support_root = [])
  /\ (is_dir (matter_support_root </> Path "board-support" </> Path "si91x"
              </> Path "siwx917") = false ->
      discover_siwx917_boards matter_support_root = []).
Proof.
  unfold discover_board_combinations, discover_siwx917_boards.
  split; [|split; [|split]].
  - intros family board mcu.
    destruct (is_dir (matter_support_root </> Path "board-support" </> Path "efr32"));
      simpl negb; cbv iota.
    + rewrite in_flat_map. split.
      * intros [family_dir [Hfd Hin]].
        destruct (is_dir family_dir) eqn:Hd; simpl in Hin; [|contradiction].
        apply in_flat_map in Hin as [board_dir [Hbd Hin]].
        destruct (is_dir board_dir) eqn:Hb; simpl in Hin; [|contradiction].
        destruct Hin as [[= <- <- <-] | []].
        split; [reflexivity|]. exists family_dir, board_dir. repeat split; assumption.
      * intros [_ [family_dir [board_dir [Hfd [Hd [Hbd [Hb [-> [-> ->]]]]]]]]].
        exists family_dir. split; [assumption|]. rewrite Hd. simpl.
        apply in_flat_map. exists board_dir. split; [assumption|].
        rewrite Hb. now left.
    + split; [contradiction | intros [Hf _]; discriminate].
  - intros board.
    destruct (is_dir (matter_support_root </> Path "board-support" </> Path "si91x"
                      </> Path "siwx917")); simpl negb; cbv iota.
    + rewrite in_flat_map. split.
      * intros [board_dir [Hbd Hin]].
        destruct (is_dir board_dir) eqn:Hb; simpl in Hin; [|contradiction].
        destruct Hin as [<- | []].
        split; [reflexivity|]. exists board_dir. repeat split; assumption.
      * intros [_ [board_dir [Hbd [Hb ->]]]].
        exists board_dir. split; [assumption|]. rewrite Hb. now left.
    + split; [contradiction | intros [Hf _]; discriminate].
  - intros ->. reflexivity.
  - intros ->. reflexivity.
Qed.

Module RootFacts.
Import Str StrFacts ResolveFacts.

Section Ancestors.
Context `{Host}.
Variables (path_parent : path -> path) (path_eqb : path -> path -> bool).

Lemma ancestor_parent (k : nat) (p : path) :
  ancestor path_parent k (path_parent p) = ancestor path_parent (S k) p.
Proof. induction k as [|k IH]; simpl; [reflexivity | now rewrite IH]. Qed.

Lemma find_repo_root_loop_found (k n : nat) (c : path) :
  (forall j, j < k ->
     has_gni (ancestor path_parent j c) = false
     /\ path_eqb (ancestor path_parent (S j) c) (ancestor path_parent j c) = false) ->
  has_gni (ancestor path_parent k c) = true ->
  find_repo_root_loop path_parent path_eqb n c
  = if (k <? n)%nat then Some (ancestor path_parent k c) else None.
Proof.
  revert n c. induction k as [|k IH]; intros n c Hbelow Hk.
  - destruct n as [|n]; [reflexivity|]. simpl in *. unfold has_gni in Hk.
    now rewrite Hk.
  - destruct n as [|n]; [reflexivity|].
    destruct (Hbelow 0 ltac:(lia)) as [H0 Hne]. simpl in H0, Hne.
    unfold has_gni in H0. simpl find_repo_root_loop. rewrite H0, Hne.
    rewrite (IH n (path_parent c)).
    + rewrite ancestor_parent. reflexivity.
    + intros j Hj. rewrite !ancestor_parent. apply Hbelow. lia.
    + now rewrite ancestor_parent.
Qed.

Lemma find_repo_root_loop_top (k n : nat) (c : path) :
  (forall j, j <= k -> has_gni (ancestor path_parent j c) = false) ->
  (forall j, j < k ->
     path_eqb (ancestor path_parent (S j) c) (ancestor path_parent j c) = false) ->
  path_eqb (ancestor path_parent (S k) c) (ancestor path_parent k c) = true ->
  find_repo_root_loop path_parent path_eqb n c = None.
Proof.
  revert n c. induction k as [|k IH]; intros n c Hnone Hne Htop.
  - destruct n as [|n]; [reflexivity|].
    pose proof (Hnone 0 ltac:(lia)) as H0. simpl in H0, Htop.
    unfold has_gni in H0. simpl. now rewrite H0, Htop.
  - destruct n as [|n]; [reflexivity|].
    pose proof (Hnone 0 ltac:(lia)) as H0. pose proof (Hne 0 ltac:(lia)) as H1.
    simpl in H0, H1. unfold has_gni in H0. simpl find_repo_root_loop.
    rewrite H0, H1. apply IH.
    + intros j Hj. rewrite ancestor_parent. apply Hnone. lia.
    + intros j Hj. rewrite !ancestor_parent. apply Hne. lia.
    + now rewrite !ancestor_parent.
Qed.
End Ancestors.

End RootFacts.

(** X10.  [find_repo_root] returns the nearest of the script directory and
    its first nine ancestors under which the primary build description
    exists.  When the nearest such ancestor is ten or more levels up, or
    when the top of the tree (a path equal to its parent) is reached
    first, it returns the script directory itself. *)
Theorem find_repo_root_nearest `{Host} (path_parent : path -> path)
    (path_eqb : path -> path -> bool) (script_dir : path) (k : nat) :
  (forall j, j < k ->
     path_eqb (ancestor path_parent (S j) script_dir)
              (ancestor path_parent j script_dir) = false) ->
  (forall j, j < k -> has_gni (ancestor path_parent j script_dir) = false) ->
  (has_gni (ancestor path_parent k script_dir) = true ->
   find_repo_root path_parent path_eqb script_dir
   = if (k <? 10)%nat then ancestor path_parent k script_dir else script_dir)
  /\ (has_gni (ancestor path_parent k script_dir) = false ->
      path_eqb (ancestor path_parent (S k) script_dir)
               (ancestor path_parent k script_dir) = true ->
      find_repo_root path_parent path_eqb script_dir = script_dir).
Proof.
  intros Hne Hnone. unfold find_repo_root. split.
  - intros Hk.
    rewrite (RootFacts.find_repo_root_loop_found path_parent path_eqb k 10
               script_dir); [now destruct (k <? 10)%nat | | assumption].
    intros j Hj. split; [now apply Hnone | now apply Hne].
  - intros Hk Htop.
    rewrite (RootFacts.find_repo_root_loop_top path_parent path_eqb k 10
               script_dir); [reflexivity | | assumption | assumption].
    intros j Hj. destruct (decide (j = k)) as [->|]; [assumption|].
    apply Hnone. lia.
Qed.

(** * Reading the SDK roots *)

Module AssignFacts.
Import Str StrFacts ResolveFacts.












End AssignFacts.


Lemma find_repo_root_nearest_witness :
  @find_repo_root (sample_host ["/r"] ["/r/third_party/silabs/efr32_sdk.gni"] [])
    sample_parent String.eqb "/r/scripts/setup/silabs"
  = "/r".
Proof.
  apply (proj1 (find_repo_root_nearest
                  (H := sample_host ["/r"] ["/r/third_party/silabs/efr32_sdk.gni"] [])
                  sample_parent String.eqb "/r/scripts/setup/silabs" 3
                  ltac:(intros [|[|[|j]]] Hj; [reflexivity .. | lia])
                  ltac:(intros [|[|[|j]]] Hj; [reflexivity .. | lia]))).
  reflexivity.
Defined.


(** An empty value is no assignment for the pattern: the root stays unset. *)
Example load_sdk_paths_empty_value :
  search_assignment "_efr32_sdk_root_from_setup"
    ("_efr32_sdk_root_from_setup = " +:+ quoted "") = None.
Proof. vm_compute. reflexivity. Qed.

(** * The dictionaries of the entry point *)

Module DictFacts.

Lemma clean_keys_union (m1 m2 : gmap string string) :
  clean_keys m1 -> clean_keys m2 -> clean_keys (m1 ∪ m2).
Proof.
  intros H1 H2 k Hk. apply lookup_union_is_Some in Hk as [Hk | Hk]; auto.
Qed.

Ltac clean_keys_literal :=
  let k := fresh "k" in
  let Hk := fresh "Hk" in
  intros k Hk; cbv zeta in Hk;
  repeat (apply lookup_insert_is_Some in Hk as [<- | [_ Hk]]; [reflexivity|]);
  let v := fresh "v" in
  destruct Hk as [v Hk]; apply lookup_singleton_Some in Hk as [<- _];
  reflexivity.

Lemma clean_efr32_base `{Host} (args : arguments) :
  clean_keys (efr32_base_vars args).
Proof. unfold efr32_base_vars. clean_keys_literal. Qed.

Lemma clean_efr32_board `{Host} (args : arguments) combo :
  clean_keys (get_efr32_board_vars args combo).
Proof.
  destruct combo as [[family board] mcu]. unfold get_efr32_board_vars.
  clean_keys_literal.
Qed.

Lemma clean_siwx917_base `{Host} (args : arguments) (wifi : path) :
  clean_keys (siwx917_base_vars args wifi).
Proof. unfold siwx917_base_vars. clean_keys_literal. Qed.

Lemma clean_siwx917_board (board : string) :
  clean_keys (get_siwx917_board_vars board).
Proof.
  intros k [v Hk]. unfold get_siwx917_board_vars in Hk.
  apply lookup_singleton_Some in Hk as [<- _]. reflexivity.
Qed.

End DictFacts.

(** X12.  No variable name of a dictionary that [main] hands to the
    resolver contains the opening of a placeholder.  So in a run of [main]
    an expression that references a variable the dictionary does not bind
    never resolves; and under the bindings of a board of the first line
    every board variable that marks an expression as board-dependent is
    bound. *)
Theorem main_dictionaries_clean `{Host} (args : arguments)
    (d : gmap string string) :
  main_dictionary args d ->
  clean_keys d
  /\ (forall expr n,
        references expr n -> d !! n = None -> resolve_path expr d = None)
  /\ (forall combo s,
        In s efr32_board_var_substrings ->
        exists n, s = group0 n
                  /\ is_Some (vars_with_board (efr32_base_vars args)
                                (get_efr32_board_vars args) combo !! n)).
Proof.
  intros Hd.
  assert (clean_keys d) as Hclean.
  { destruct Hd as [-> | [[combo ->] | [[wifi ->] | [wifi [board ->]]]]].
    - apply DictFacts.clean_efr32_base.
    - apply DictFacts.clean_keys_union;
        [apply DictFacts.clean_efr32_board | apply DictFacts.clean_efr32_base].
    - apply DictFacts.clean_siwx917_base.
    - apply DictFacts.clean_keys_union;
        [apply DictFacts.clean_siwx917_board | apply DictFacts.clean_siwx917_base]. }
  split; [exact Hclean|]. split.
  - intros expr n [Hn Href] Hnone.
    apply StrFacts.contains_iff in Href as [pre [post ->]].
    now apply ResolveInvariant.resolve_path_unbound.
  - intros [[family board] mcu] s Hs. unfold vars_with_board.
    assert (forall n, is_Some (get_efr32_board_vars args (family, board, mcu) !! n) ->
                      is_Some ((get_efr32_board_vars args (family, board, mcu)
                                ∪ efr32_base_vars args) !! n)) as Hu.
    { intros n Hn. apply lookup_union_is_Some. now left. }
    simpl in Hs.
    destruct Hs as [<- | [<- | [<- | [<- | [<- | [<- | []]]]]]];
      [exists "silabs_family" | exists "silabs_board" | exists "silabs_mcu"
      | exists "silabs_gen_folder" | exists "sl_pre_gen_path"
      | exists "slc_gen_path"];
      (split; [reflexivity|]); apply Hu; unfold get_efr32_board_vars;
      cbv zeta; simplify_map_eq; eauto.
Qed.

Lemma main_dictionaries_clean_witness :
  resolve_path "${efr32_sdk_root}/${unknown_root}/x.c"
    (@efr32_base_vars unresolved_only_host
       (@MkArguments unresolved_only_host "/r" None None None false false false))
  = None.
Proof.
  apply (proj1 (proj2 (main_dictionaries_clean (H := unresolved_only_host)
                         (@MkArguments unresolved_only_host "/r" None None None
                            false false false)
                         _ (or_introl eq_refl)))
           _ "unknown_root").
  - split; [split; [discriminate | reflexivity] | reflexivity].
  - vm_compute. reflexivity.
Defined.
